(** * alice: chaining of context-aware HTTP middleware (chain.go)

    A shallow embedding of package [alice].  The package code runs in a
    state-and-panic monad over a machine state made of
    - the store of slice backing arrays (Go slices alias their arrays),
    - the world of the caller's code (middleware, handlers, [context]),
    - a ghost trace of the calls the package makes to foreign code.
    Middleware constructors and handlers are foreign code: they act on the
    world only, and may panic. *)

From stdpp Require Import base strings list gmap.

Set Default Proof Using "Type".

(** ** Computations that may panic *)

(** The value carried by a Go panic: [panic("...")] of the program, or a
    run-time error raised by the language. *)
Inductive PanicValue : Type :=
| PanicString (msg : string)
| RuntimeError (msg : string).

Inductive Outcome (S A : Type) : Type :=
| Returned (a : A) (s : S)
| Panicked (v : PanicValue) (s : S).
Arguments Returned {S A} a s.
Arguments Panicked {S A} v s.

Definition Eff (S A : Type) : Type := S → Outcome S A.

Definition ret {S A} (a : A) : Eff S A := λ s, Returned a s.

Definition bind {S A B} (m : Eff S A) (k : A → Eff S B) : Eff S B :=
  λ s, match m s with
       | Returned a s' => k a s'
       | Panicked v s' => Panicked v s'
       end.

Definition panic {S A} (v : PanicValue) : Eff S A := λ s, Panicked v s.

Definition gets {S A} (f : S → A) : Eff S A := λ s, Returned (f s) s.

Definition modify {S} (f : S → S) : Eff S unit := λ s, Returned tt (f s).

Notation "x <- m ;; k" := (bind m (λ x, k))
  (at level 100, m at next level, right associativity, only parsing).
Notation "m ;;; k" := (bind m (λ _, k))
  (at level 100, right associativity, only parsing).

Definition final_state {S A} (o : Outcome S A) : S :=
  match o with Returned _ s => s | Panicked _ s => s end.

Definition has_returned {S A} (o : Outcome S A) : Prop :=
  match o with Returned _ _ => True | Panicked _ _ => False end.

Definition map_state {S T A} (f : S → T) (o : Outcome S A) : Outcome T A :=
  match o with
  | Returned a s => Returned a (f s)
  | Panicked v s => Panicked v (f s)
  end.

(** Backing arrays are named by locations. *)
Definition loc : Type := positive.

(** A slice header: backing array (none for the nil slice), offset of the
    first element in it, length and capacity. *)
Record slice : Type := Slice {
  s_arr : option loc;
  s_off : nat;
  s_len : nat;
  s_cap : nat
}.

Definition nil_slice : slice :=
  {| s_arr := None; s_off := 0; s_len := 0; s_cap := 0 |}.

(** ** The static types of the handlers *)

(** The parameter types of the handlers' methods. *)
Inductive ParamType : Type :=
| T_context_Context
| T_http_ResponseWriter
| T_ptr_http_Request.

#[global] Instance ParamType_eq_dec : EqDecision ParamType.
Proof. solve_decision. Defined.

Record MethodSig : Type := {
  method_name : string;
  method_params : list ParamType
}.

#[global] Instance MethodSig_eq_dec : EqDecision MethodSig.
Proof. solve_decision. Defined.

(** The interface types [CtxHandler] of the package and [http.Handler] of
    [net/http]. *)
Inductive InterfaceType : Type :=
| T_CtxHandler
| T_http_Handler.

(** [type CtxHandler interface {
       ServeHTTP(context.Context, http.ResponseWriter, *http.Request) }];
    the method of [http.Handler] takes the writer and the request only. *)
Definition method_set (T : InterfaceType) : list MethodSig :=
  match T with
  | T_CtxHandler =>
      [ {| method_name := "ServeHTTP";
           method_params := [T_context_Context; T_http_ResponseWriter;
                             T_ptr_http_Request] |} ]
  | T_http_Handler =>
      [ {| method_name := "ServeHTTP";
           method_params := [T_http_ResponseWriter; T_ptr_http_Request] |} ]
  end.

(** A value of the interface type [T] may be returned where [I] is declared
    when [T] implements [I]: the method set of [T] has every method of [I],
    with the same signature. *)
Definition implements (T I : InterfaceType) : bool :=
  forallb (λ m, bool_decide (m ∈ method_set T)) (method_set I).

(** The methods whose call a [return] statement returns, with their
    declared result types:
    [func (c Chain) Then(h CtxHandler) (wrappedFinal http.Handler)],
    [func (c Chain) ThenContext(h CtxHandler) (final CtxHandler)]. *)
Inductive Callee : Type :=
| call_Then
| call_ThenContext.

Definition result_type (f : Callee) : InterfaceType :=
  match f with
  | call_Then => T_http_Handler
  | call_ThenContext => T_CtxHandler
  end.

(** The declaration of a function-valued variant: its declared result type
    and the call of each of its [return] statements, in source order. *)
Record FuncDecl : Type := {
  declared_result : InterfaceType;
  returned_calls : list Callee
}.

(** [func (c Chain) ThenFuncContext(fn CtxHandlerFunc) (final CtxHandler) {
       if fn == nil { return c.Then(nil) }
       return c.ThenContext(CtxHandlerFunc(fn)) }] *)
Definition ThenFuncContext_decl : FuncDecl :=
  {| declared_result := T_CtxHandler;
     returned_calls := [call_Then; call_ThenContext] |}.

(** [func (c Chain) ThenFunc(fn CtxHandlerFunc) http.Handler {
       if fn == nil { return c.Then(nil) }
       return c.Then(CtxHandlerFunc(fn)) }] *)
Definition ThenFunc_decl : FuncDecl :=
  {| declared_result := T_http_Handler;
     returned_calls := [call_Then; call_Then] |}.

(** The [return] statements of a declaration that do not type-check, and
    whether all of them do. *)
Definition ill_typed_returns (d : FuncDecl) : list Callee :=
  filter (λ f, implements (result_type f) (declared_result d) = false)
    (returned_calls d).

Definition type_checks (d : FuncDecl) : bool :=
  forallb (λ f, implements (result_type f) (declared_result d))
    (returned_calls d).

(** ** The package [context] *)

Module context.

(** Modelled from the spec: the package [context] is not part of the
    sources.  A context carries request-scoped values and deadlines; it is a
    root, which is empty, or it is derived from a parent context.
    [context.TODO()] returns a root context and is derived from nothing. *)
Inductive Context : Type :=
| emptyCtx (name : string)
| WithValue (parent : Context) (key val : string)
| WithDeadline (parent : Context) (deadline : nat).

Fixpoint Value (ctx : Context) (key : string) : option string :=
  match ctx with
  | emptyCtx _ => None
  | WithValue parent k v => if decide (k = key) then Some v else Value parent key
  | WithDeadline parent _ => Value parent key
  end.


Definition parent (ctx : Context) : option Context :=
  match ctx with
  | emptyCtx _ => None
  | WithValue parent _ _ => Some parent
  | WithDeadline parent _ => Some parent
  end.

(** Modelled from the spec: the value of [context.TODO()], a root and empty
    context. *)
Definition todo : Context := emptyCtx "context.TODO".

(** Modelled from the spec: the function [context.TODO] of the package
    [context]; it returns the root [todo], whatever the world and before any
    request, and has no effect. *)
Definition TODO {World : Type} : World → Context * World :=
  λ w, (todo, w).

End context.

Section alice.

(** The foreign types of [net/http] and [context], and the caller's world. *)
Context {Ctx ResponseWriter Request World : Type}.

(** [context.TODO()]: foreign code; it cannot panic. *)
Variable context_TODO : World → Ctx * World.

(** The run-time's capacity policy when [append] must grow a slice, given
    the old capacity and the length needed. *)
Variable growslice_cap : nat → nat → nat.

(** Foreign code runs on the world. *)
Definition User (A : Type) : Type := Eff World A.

(** [type CtxHandlerFunc func(context.Context, http.ResponseWriter, *http.Request)]
    A func value may be nil. *)
Definition CtxHandlerFunc : Type :=
  option (Ctx → ResponseWriter → Request → User unit).

(** [type CtxHandler interface { ServeHTTP(...) }]: an interface value is
    nil or carries a dynamic value with its method. *)
Inductive CtxHandler : Type :=
| CtxHandler_nil
| CtxHandler_impl (serve : Ctx → ResponseWriter → Request → User unit).

(** [type Constructor func(context.Context, CtxHandler) CtxHandler] *)
Definition Constructor : Type :=
  option (Ctx → CtxHandler → User CtxHandler).

(** [http.HandlerFunc] and the interface [http.Handler]; the package only
    ever builds a handler from a func literal. *)
Definition HandlerFunc : Type := ResponseWriter → Request → User unit.

Inductive Handler : Type :=
| Handler_of_HandlerFunc (f : HandlerFunc).

Definition nil_dereference : PanicValue :=
  RuntimeError "invalid memory address or nil pointer dereference".

Definition index_out_of_range : PanicValue :=
  RuntimeError "index out of range".

(** Method call on an interface value. *)
Definition CtxHandler_ServeHTTP (h : CtxHandler)
    (ctx : Ctx) (w : ResponseWriter) (r : Request) : User unit :=
  match h with
  | CtxHandler_nil => panic nil_dereference
  | CtxHandler_impl serve => serve ctx w r
  end.

Definition Handler_ServeHTTP (h : Handler)
    (w : ResponseWriter) (r : Request) : User unit :=
  match h with
  | Handler_of_HandlerFunc f => f w r
  end.

(** [func (f CtxHandlerFunc) ServeHTTP(ctx, w, r) { f(ctx, w, r) }] *)
Definition CtxHandlerFunc_ServeHTTP (f : CtxHandlerFunc)
    (ctx : Ctx) (w : ResponseWriter) (r : Request) : User unit :=
  match f with
  | None => panic nil_dereference
  | Some fn => fn ctx w r
  end.

(** Conversion of a [CtxHandlerFunc] to the interface [CtxHandler]: the
    interface value is not nil, whatever the func value is. *)
Definition CtxHandler_of_CtxHandlerFunc (f : CtxHandlerFunc) : CtxHandler :=
  CtxHandler_impl (CtxHandlerFunc_ServeHTTP f).

(** ** The machine state *)

(** The calls the package makes to foreign code at fold time. *)
Inductive Event : Type :=
| EvTODO (ctx : Ctx)
| EvConstructor (i : nat) (c : Constructor) (ctx : Ctx) (next : CtxHandler).

Record State : Type := MkState {
  heap : gmap loc (list Constructor);
  world : World;
  trace : list Event
}.

Definition set_heap (σ : gmap loc (list Constructor)) (st : State) : State :=
  {| heap := σ; world := world st; trace := trace st |}.

Definition set_world (w : World) (st : State) : State :=
  {| heap := heap st; world := w; trace := trace st |}.

Definition log_event (e : Event) (st : State) : State :=
  {| heap := heap st; world := world st; trace := trace st ++ [e] |}.

Definition M (A : Type) : Type := Eff State A.

(** Running foreign code from the package: only the world changes. *)
Definition lift {A} (u : User A) : M A :=
  λ st, map_state (λ w, set_world w st) (u (world st)).

(** ** Slices (the Go built-ins the package uses) *)

Implicit Types (σ : gmap loc (list Constructor)) (s : slice).

(** The elements [s[0], ..., s[len(s)-1]] as the store holds them. *)
Definition slice_elems σ s : list Constructor :=
  match s_arr s with
  | None => []
  | Some l => take (s_len s) (drop (s_off s) (default [] (σ !! l)))
  end.

(** A slice header is well formed in a store when its window lies inside
    its backing array. *)
Definition slice_wf σ s : Prop :=
  match s_arr s with
  | None => s_len s = 0 ∧ s_cap s = 0
  | Some l =>
      match σ !! l with
      | Some a => s_len s ≤ s_cap s ∧ s_off s + s_cap s ≤ length a
      | None => False
      end
  end.

(** Allocation of a new backing array. *)
Definition alloc_array (a : list Constructor) : M loc :=
  σ <- gets heap ;;
  let l := fresh (dom σ) in
  modify (set_heap (<[l := a]> σ)) ;;;
  ret l.

(** Writing [xs] into the backing array of [s] from slice index [i] on. *)
Definition slice_store s (i : nat) (xs : list Constructor) : M unit :=
  match s_arr s with
  | None => ret tt
  | Some l =>
      σ <- gets heap ;;
      modify (set_heap (alter (list_inserts (s_off s + i) xs) l σ))
  end.

(** [s[i]] *)
Definition slice_index s (i : nat) : M Constructor :=
  if decide (i < s_len s) then
    σ <- gets heap ;;
    match slice_elems σ s !! i with
    | Some c => ret c
    | None => panic nil_dereference
    end
  else panic index_out_of_range.

(** [s[i] = x] *)
Definition slice_assign s (i : nat) (x : Constructor) : M unit :=
  if decide (i < s_len s) then slice_store s i [x]
  else panic index_out_of_range.

(** [make([]Constructor, n)]: a new array of [n] zero values. *)
Definition go_make (n : nat) : M slice :=
  l <- alloc_array (replicate n None) ;;
  ret {| s_arr := Some l; s_off := 0; s_len := n; s_cap := n |}.

(** [copy(dst, src)]: copies [min(len(dst), len(src))] elements. *)
Definition go_copy (dst src : slice) : M nat :=
  σ <- gets heap ;;
  let n := s_len dst `min` s_len src in
  slice_store dst 0 (take n (slice_elems σ src)) ;;;
  ret n.

(** [append(s, xs...)]: in place when the capacity of [s] suffices, into a
    new array otherwise. *)
Definition go_append (s xs : slice) : M slice :=
  σ <- gets heap ;;
  let elems := slice_elems σ xs in
  let n := s_len s + s_len xs in
  if decide (n ≤ s_cap s) then
    slice_store s (s_len s) elems ;;;
    ret {| s_arr := s_arr s; s_off := s_off s; s_len := n; s_cap := s_cap s |}
  else
    let newcap := n `max` growslice_cap (s_cap s) n in
    l <- alloc_array (slice_elems σ s ++ elems ++ replicate (newcap - n) None) ;;
    ret {| s_arr := Some l; s_off := 0; s_len := n; s_cap := newcap |}.

(** The slice a variadic parameter receives when the call lists its
    arguments: nil for no argument, a new array of the arguments otherwise. *)
Definition variadic (args : list Constructor) : M slice :=
  match args with
  | [] => ret nil_slice
  | _ =>
      l <- alloc_array args ;;
      ret {| s_arr := Some l; s_off := 0;
             s_len := length args; s_cap := length args |}
  end.

(** ** chain.go *)

(** [type Chain struct { constructors []Constructor }] *)
Record Chain : Type := MkChain { constructors : slice }.

(** [func New(constructors ...Constructor) Chain] *)
Definition New (constructors_ : slice) : M Chain :=
  let c := {| constructors := nil_slice |} in
  s <- go_append (constructors c) constructors_ ;;
  let c := {| constructors := s |} in
  ret c.

(** The call [context.TODO()]. *)
Definition call_TODO : M Ctx :=
  λ st, let '(ctx, w) := context_TODO (world st) in
        Returned ctx (log_event (EvTODO ctx) (set_world w st)).

(** The call [c.constructors[i](ctx, final)] of the constructor [f] read
    from index [i]. *)
Definition call_constructor (i : nat) (f : Constructor)
    (ctx : Ctx) (final : CtxHandler) : M CtxHandler :=
  modify (log_event (EvConstructor i f ctx final)) ;;;
  match f with
  | None => panic nil_dereference
  | Some fn => lift (fn ctx final)
  end.

(** [for i := len(c.constructors) - 1; i >= 0; i-- {
       final = c.constructors[i](ctx, final) }]
    The argument [n] is [i + 1]: the loop ends when [i] falls below 0. *)
Fixpoint wrap_loop (c : Chain) (ctx : Ctx) (n : nat) (final : CtxHandler)
    : M CtxHandler :=
  match n with
  | 0 => ret final
  | S i =>
      f <- slice_index (constructors c) i ;;
      final <- call_constructor i f ctx final ;;
      wrap_loop c ctx i final
  end.

(** [func CtxHandlerToHandlerFunc(ctx context.Context, fn CtxHandler) http.HandlerFunc] *)
Definition CtxHandlerToHandlerFunc (ctx : Ctx) (fn : CtxHandler) : HandlerFunc :=
  λ w r, CtxHandler_ServeHTTP fn ctx w r.

(** [func (c Chain) Then(h CtxHandler) (wrappedFinal http.Handler)] *)
Definition Then (c : Chain) (h : CtxHandler) : M Handler :=
  ctx <- call_TODO ;;
  final <- match h with
           | CtxHandler_impl _ => ret h
           | CtxHandler_nil => panic (PanicString "nil is not allowed")
           end ;;
  final <- wrap_loop c ctx (s_len (constructors c)) final ;;
  let wrappedFinal := Handler_of_HandlerFunc (CtxHandlerToHandlerFunc ctx final) in
  ret wrappedFinal.

(** [func (c Chain) ThenContext(h CtxHandler) (final CtxHandler)] *)
Definition ThenContext (c : Chain) (h : CtxHandler) : M CtxHandler :=
  ctx <- call_TODO ;;
  final <- match h with
           | CtxHandler_impl _ => ret h
           | CtxHandler_nil => panic (PanicString "nil is not allowed")
           end ;;
  final <- wrap_loop c ctx (s_len (constructors c)) final ;;
  ret final.

(** [func (c Chain) ThenFunc(fn CtxHandlerFunc) http.Handler] *)
Definition ThenFunc (c : Chain) (fn : CtxHandlerFunc) : M Handler :=
  match fn with
  | None => Then c CtxHandler_nil
  | Some _ => Then c (CtxHandler_of_CtxHandlerFunc fn)
  end.

(** [func (c Chain) Append(constructors ...Constructor) Chain] *)
Definition Append (c : Chain) (constructors_ : slice) : M Chain :=
  newCons <- go_make (s_len (constructors c)) ;;
  go_copy newCons (constructors c) ;;;
  newCons <- go_append newCons constructors_ ;;
  newChain <- New newCons ;;
  ret newChain.

(** ** Specification-side definitions *)

(** [h != nil] *)
Definition CtxHandler_is_nil (h : CtxHandler) : bool :=
  match h with CtxHandler_nil => true | CtxHandler_impl _ => false end.

(** The chain [c] holds the constructor sequence [cs] in the store. *)
Definition chain_holds σ (c : Chain) (cs : list Constructor) : Prop :=
  slice_wf σ (constructors c) ∧ slice_elems σ (constructors c) = cs.

(** The backing array of [s], if any, is not allocated in [σ]. *)
Definition fresh_slice σ s : Prop :=
  match s_arr s with
  | None => True
  | Some l => σ !! l = None
  end.

(** The manually nested calls [c1(ctx, c2(ctx, ... cn(ctx, h)))], with [c1]
    at index [i]: Go evaluates the argument of a call before the call. *)
Fixpoint nested (ctx : Ctx) (i : nat) (cs : list Constructor) (h : CtxHandler)
    : M CtxHandler :=
  match cs with
  | [] => ret h
  | c :: cs' =>
      inner <- nested ctx (S i) cs' h ;;
      call_constructor i c ctx inner
  end.



(** What the spec asks of a fold of the sequence [cs] with terminal [h]. *)
Definition ThenContext_spec (cs : list Constructor) (h : CtxHandler)
    : M CtxHandler :=
  ctx <- call_TODO ;;
  nested ctx 0 cs h.

Definition Then_spec (cs : list Constructor) (h : CtxHandler) : M Handler :=
  ctx <- call_TODO ;;
  final <- nested ctx 0 cs h ;;
  ret (Handler_of_HandlerFunc (CtxHandlerToHandlerFunc ctx final)).

(** The state in which a fold starts its work, after [context.TODO()], and
    the context of that fold. *)
Definition fold_ctx (st : State) : Ctx := (context_TODO (world st)).1.

Definition after_TODO (st : State) : State :=
  log_event (EvTODO (fold_ctx st)) (set_world (context_TODO (world st)).2 st).

(** A middleware that does [pre] and then calls the following handler. *)
Definition passthrough (pre : Ctx → ResponseWriter → Request → User unit)
    : Constructor :=
  Some (λ _ next,
    ret (CtxHandler_impl (λ ctx w r,
      pre ctx w r ;;; CtxHandler_ServeHTTP next ctx w r))).

(** A request passing through [pres] in order and then reaching [h]. *)
Fixpoint serve_through (pres : list (Ctx → ResponseWriter → Request → User unit))
    (h : CtxHandler) (ctx : Ctx) (w : ResponseWriter) (r : Request) : User unit :=
  match pres with
  | [] => CtxHandler_ServeHTTP h ctx w r
  | pre :: pres' => pre ctx w r ;;; serve_through pres' h ctx w r
  end.

(** Reading the ghost trace. *)
Definition constructor_index (e : Event) : option nat :=
  match e with
  | EvTODO _ => None
  | EvConstructor i _ _ _ => Some i
  end.

(** The indices of the constructors called, in call order. *)
Definition constructor_calls (t : list Event) : list nat :=
  omap constructor_index t.

(** The event is a constructor call that receives the context [ctx]. *)
Definition called_with (ctx : Ctx) (e : Event) : Prop :=
  match e with
  | EvTODO _ => False
  | EvConstructor _ _ ctx' _ => ctx' = ctx
  end.

(** The event is the call of [cs[i]] for some index [i]. *)
Definition calls_member (cs : list Constructor) (e : Event) : Prop :=
  match e with
  | EvTODO _ => False
  | EvConstructor i c _ _ => cs !! i = Some c
  end.

(** The computation returns from [st], with a result and a state in [Q]. *)
Definition returns {A} (m : M A) (st : State) (Q : A → State → Prop) : Prop :=
  match m st with
  | Returned a st' => Q a st'
  | Panicked _ _ => False
  end.

(** Two states that differ in the store only. *)
Definition same_but_heap (st st' : State) : Prop :=
  world st' = world st ∧ trace st' = trace st.

(** The store [σ'] differs from [σ] at most on the arrays that the store
    [σ0] holds: it is [σ] after any writes through slices of [σ0]. *)
Definition writes_within σ0 σ σ' : Prop :=
  ∀ l, σ0 !! l = None → σ' !! l = σ !! l.

(** Whatever is written to the arrays of [σ0] from the state [st'] on, the
    chain [c] holds [cs] and its folds are those of [st']. *)
Definition isolated_from σ0 (c : Chain) (cs : list Constructor) (st' : State)
    : Prop :=
  ∀ σ', writes_within σ0 (heap st') σ' →
    chain_holds σ' c cs
    ∧ (∀ h, ThenContext c h (set_heap σ' st')
            = map_state (set_heap σ') (ThenContext c h st'))
    ∧ (∀ h, Then c h (set_heap σ' st')
            = map_state (set_heap σ') (Then c h st')).

End alice.

(** ** A test bed: middleware that logs its name *)

Module Scenario.

(** The world is the log of the names recorded so far; the context is a
    label, a request is its path. *)
Definition Log : Type := list string.

Definition todo : Log → string * Log := λ w, ("TODO", w).

Definition grow : nat → nat → nat := λ old _, 2 * old.

Definition record (name : string) : string → unit → string → @User Log unit :=
  λ _ _ _, modify (λ w, w ++ [name]).

(** The middleware of the tests that appends its name and calls the next
    handler. *)
Definition middleware (name : string)
    : @Constructor string unit string Log :=
  passthrough (record name).

(** A terminal handler that appends its name and stops. *)
Definition endpoint (name : string)
    : @CtxHandler string unit string Log :=
  CtxHandler_impl (record name).

(** A bare handler function. *)
Definition endpoint_func (name : string)
    : @CtxHandlerFunc string unit string Log :=
  Some (record name).

(** A state in which the array at location 1 holds the middleware [A], [B]
    and [C]. *)
Definition st_ABC : @State string unit string Log :=
  {| heap := {[ 1%positive := [middleware "A"; middleware "B"; middleware "C"] ]};
     world := [];
     trace := [] |}.

(** The slice over the whole array, the chain that holds it, and the slice
    [arr[2:3]] of its last element. *)
Definition slice_ABC : slice :=
  {| s_arr := Some 1%positive; s_off := 0; s_len := 3; s_cap := 3 |}.

Definition chain_ABC : Chain := {| constructors := slice_ABC |}.

Definition middleware_ABC : list (@Constructor string unit string Log) :=
  [middleware "A"; middleware "B"; middleware "C"].

Definition slice_C : slice :=
  {| s_arr := Some 1%positive; s_off := 2; s_len := 1; s_cap := 1 |}.

(** The chain of no constructor. *)
Definition chain_empty : Chain := {| constructors := nil_slice |}.

(** The result of a computation that returns. *)
Definition result {S A} (d : A) (o : Outcome S A) : A :=
  match o with Returned a _ => a | Panicked _ _ => d end.

Definition no_handler : @Handler unit string Log :=
  Handler_of_HandlerFunc (λ _ _, ret tt).

(** The empty state, and the log a request to [/] leaves when it is served
    by the handler a computation returns. *)
Definition st_empty : @State string unit string Log :=
  {| heap := ∅; world := []; trace := [] |}.

Definition served_log (o : Outcome (@State string unit string Log)
                                   (@Handler unit string Log)) : option Log :=
  match o with
  | Returned p _ => Some (final_state (Handler_ServeHTTP p tt "/" []))
  | Panicked _ _ => None
  end.

(** [New(Logger, Auth).Then(Index)] *)
Definition Logger_Auth_Index : M Handler :=
  args <- variadic [middleware "Logger"; middleware "Auth"] ;;
  c <- New grow args ;;
  Then todo c (endpoint "index").

(** [s := arr[0:2]; t := append(s, x)] on the array of [A], [B], [C]: the
    slice has spare capacity. *)
Definition slice_AB : slice :=
  {| s_arr := Some 1%positive; s_off := 0; s_len := 2; s_cap := 3 |}.

Definition append_X_to_AB : M slice :=
  x <- variadic [middleware "X"] ;;
  go_append grow slice_AB x.

(** [c := New(arr...); arr[0] = X; c.Then(index)] *)
Definition New_then_overwrite : M Handler :=
  c <- New grow slice_ABC ;;
  slice_assign slice_ABC 0 (middleware "X") ;;;
  Then todo c (endpoint "index").

(** The chains over [arr[0:2]] and [arr[2:3]]. *)
Definition chain_AB : Chain := {| constructors := slice_AB |}.

Definition chain_C : Chain := {| constructors := slice_C |}.

(** The array of [A], the nil constructor and [C]; the fold of it with the
    terminal [index] up to the call of the nil constructor. *)
Definition st_AnilC : @State string unit string Log :=
  {| heap := {[ 1%positive := [middleware "A"; None; middleware "C"] ]};
     world := [];
     trace := [] |}.

Definition fold_AnilC_above : Outcome State CtxHandler :=
  nested (fold_ctx todo st_AnilC) 2 [middleware "C"] (endpoint "index")
    (after_TODO todo st_AnilC).

(** A constructor that returns nil, the array of it, [B] and [C], and the
    fold of that array with the terminal [index] up to the outermost call. *)
Definition returns_nil : @Constructor string unit string Log :=
  Some (λ _ _, ret CtxHandler_nil).

Definition st_nilBC : @State string unit string Log :=
  {| heap := {[ 1%positive := [returns_nil; middleware "B"; middleware "C"] ]};
     world := [];
     trace := [] |}.

Definition fold_nilBC_above : Outcome State CtxHandler :=
  nested (fold_ctx todo st_nilBC) 1 [middleware "B"; middleware "C"]
    (endpoint "index") (after_TODO todo st_nilBC).

(** The test bed with contexts of the package [context]: middleware that
    appends its name and the value the context has for the key [user]. *)
Definition record_user (name : string)
    : context.Context → unit → string → @User Log unit :=
  λ ctx _ _, modify (λ w, w ++ [name; default "-" (context.Value ctx "user")]).

Definition st_ctx_AB : @State context.Context unit string Log :=
  {| heap := {[ 1%positive := [passthrough (record_user "A");
                               passthrough (record_user "B")] ]};
     world := [];
     trace := [] |}.

Definition chain_ctx_AB : Chain :=
  {| constructors :=
       {| s_arr := Some 1%positive; s_off := 0; s_len := 2; s_cap := 2 |} |}.

Definition endpoint_ctx : @CtxHandler context.Context unit string Log :=
  CtxHandler_impl (record_user "index").


(** [p1 := base.Then(h1); p2 := base.Then(h2)] on the chain of [A], [B],
    [C]. *)
Definition fold_h1 : Outcome State Handler :=
  Then todo chain_ABC (endpoint "h1") st_ABC.

Definition fold_h2 : Outcome State Handler :=
  Then todo chain_ABC (endpoint "h2") (final_state fold_h1).

End Scenario.

(** * Facts *)

Section monad_facts.
Context {S A B C : Type}.

Lemma bind_assoc (m : Eff S A) (k : A → Eff S B) (k' : B → Eff S C) s :
  bind (bind m k) k' s = bind m (λ a, bind (k a) k') s.
Proof. unfold bind. by destruct (m s). Qed.

Lemma bind_ext (m : Eff S A) (k k' : A → Eff S B) s :
  (∀ a s', k a s' = k' a s') → bind m k s = bind m k' s.
Proof. intros Hk. unfold bind. by destruct (m s). Qed.

Lemma bind_ret_r (m : Eff S A) s : bind m ret s = m s.
Proof. unfold bind, ret. by destruct (m s). Qed.

End monad_facts.

Section alice_facts.

Context {Ctx ResponseWriter Request World : Type}.
Variable context_TODO : World → Ctx * World.
Variable growslice_cap : nat → nat → nat.

Abbreviation Constructor := (@Constructor Ctx ResponseWriter Request World).
Abbreviation CtxHandler := (@CtxHandler Ctx ResponseWriter Request World).
Abbreviation State := (@State Ctx ResponseWriter Request World).
Abbreviation Event := (@Event Ctx ResponseWriter Request World).
Abbreviation Store := (gmap loc (list Constructor)).

Implicit Types (σ : Store) (s : slice) (st : State) (c : Chain).
Implicit Types (cs : list Constructor) (h final : CtxHandler) (ctx : Ctx).

(** ** Calls to foreign code leave the store alone *)

Lemma call_constructor_heap i (f : Constructor) ctx h st :
  heap (final_state (call_constructor i f ctx h st)) = heap st.
Proof.
  unfold call_constructor, bind, modify, lift, panic. simpl.
  destruct f as [fn|]; simpl; [|done].
  by destruct (fn ctx h (world st)).
Qed.

Lemma call_constructor_trace i (f : Constructor) ctx h st :
  trace (final_state (call_constructor i f ctx h st))
  = trace st ++ [EvConstructor i f ctx h].
Proof.
  unfold call_constructor, bind, modify, lift, panic. simpl.
  destruct f as [fn|]; simpl; [|done].
  by destruct (fn ctx h (world st)).
Qed.

Lemma call_constructor_set_heap i (f : Constructor) ctx h st σ :
  call_constructor i f ctx h (set_heap σ st)
  = map_state (set_heap σ) (call_constructor i f ctx h st).
Proof.
  unfold call_constructor, bind, modify, lift, panic. simpl.
  destruct f as [fn|]; simpl; [|done].
  by destruct (fn ctx h (world st)).
Qed.

Lemma slice_index_elems s i st (f : Constructor) :
  slice_elems (heap st) s !! i = Some f →
  slice_index s i st = Returned f st.
Proof.
  intros Hf. unfold slice_index.
  assert (i < s_len s) as Hi.
  { apply lookup_lt_Some in Hf. unfold slice_elems in Hf.
    destruct (s_arr s); simpl in Hf; [|lia].
    rewrite length_take in Hf. lia. }
  rewrite decide_True by done.
  unfold bind, gets. by rewrite Hf.
Qed.

Lemma slice_wf_length σ s :
  slice_wf σ s → length (slice_elems σ s) = s_len s.
Proof.
  unfold slice_wf, slice_elems.
  destruct (s_arr s) as [l|]; [|by intros [-> _]].
  destruct (σ !! l) as [a|]; [|done]. simpl. intros [? ?].
  rewrite length_take, length_drop. lia.
Qed.

Lemma chain_holds_length σ c cs :
  chain_holds σ c cs → length cs = s_len (constructors c).
Proof. intros [Hwf <-]. by apply slice_wf_length. Qed.

(** ** The loop of [Then] is the nesting of the calls *)

Lemma nested_snoc ctx i cs (f : Constructor) h st :
  nested ctx i (cs ++ [f]) h st
  = (h' <- call_constructor (i + length cs) f ctx h ;; nested ctx i cs h') st.
Proof.
  revert i st. induction cs as [|a cs IH]; intros i st; simpl.
  - rewrite Nat.add_0_r. symmetry. apply bind_ret_r.
  - unfold bind at 1. rewrite IH. rewrite <-Nat.add_succ_comm.
    unfold bind. by destruct (call_constructor (S i + length cs) f ctx h st).
Qed.

Lemma wrap_loop_nested c ctx cs n final st :
  slice_elems (heap st) (constructors c) = cs →
  n ≤ length cs →
  wrap_loop c ctx n final st = nested ctx 0 (take n cs) final st.
Proof.
  revert final st. induction n as [|n IH]; intros final st Hcs Hn.
  - by rewrite take_0.
  - destruct (lookup_lt_is_Some_2 cs n) as [f Hf]; [lia|].
    rewrite (take_S_r _ _ _ Hf), nested_snoc. simpl.
    rewrite length_take_le by lia.
    unfold bind at 1. rewrite (slice_index_elems _ _ _ f) by by rewrite Hcs.
    unfold bind.
    pose proof (call_constructor_heap n f ctx final st) as Hheap.
    destruct (call_constructor n f ctx final st) as [h' st'|]; [|done].
    apply IH; [|lia]. simpl in Hheap. by rewrite Hheap.
Qed.

Lemma wrap_loop_chain c ctx cs final st :
  chain_holds (heap st) c cs →
  wrap_loop c ctx (s_len (constructors c)) final st = nested ctx 0 cs final st.
Proof.
  intros Hc. pose proof (chain_holds_length _ _ _ Hc) as Hlen.
  destruct Hc as [_ Hcs].
  rewrite (wrap_loop_nested c ctx cs); [|done|lia].
  by rewrite <-Hlen, firstn_all.
Qed.

Lemma call_TODO_eq st :
  call_TODO context_TODO st = Returned (fold_ctx context_TODO st) (after_TODO context_TODO st).
Proof.
  unfold call_TODO, after_TODO, fold_ctx.
  destruct (context_TODO (world st)). reflexivity.
Qed.

Lemma ThenContext_refines c cs h st :
  chain_holds (heap st) c cs →
  CtxHandler_is_nil h = false →
  ThenContext context_TODO c h st = ThenContext_spec context_TODO cs h st.
Proof.
  intros Hc Hh. unfold ThenContext, ThenContext_spec, bind at 1 4.
  rewrite call_TODO_eq. destruct h; [done|]. unfold bind at 1. simpl.
  rewrite bind_ret_r. by apply wrap_loop_chain.
Qed.

Lemma Then_refines c cs h st :
  chain_holds (heap st) c cs →
  CtxHandler_is_nil h = false →
  Then context_TODO c h st = Then_spec context_TODO cs h st.
Proof.
  intros Hc Hh. unfold Then, Then_spec, bind at 1 4.
  rewrite call_TODO_eq. destruct h; [done|]. unfold bind at 1. simpl.
  unfold bind. by rewrite (wrap_loop_chain c _ cs).
Qed.

(** ** [Then] is [ThenContext] followed by the adapter *)

Lemma Then_via_ThenContext c h st :
  Then context_TODO c h st
  = (final <- ThenContext context_TODO c h ;;
     ret (Handler_of_HandlerFunc
            (CtxHandlerToHandlerFunc (fold_ctx context_TODO st) final))) st.
Proof.
  unfold Then, ThenContext. rewrite !bind_assoc.
  unfold bind at 1 4. rewrite call_TODO_eq.
  rewrite bind_assoc. apply bind_ext. intros final st'.
  rewrite bind_assoc. apply bind_ext. by intros final' st''.
Qed.

(** ** The calls a fold makes *)

Lemma slice_index_cases s i st :
  (∃ f : Constructor, slice_index s i st = Returned f st
      ∧ slice_elems (heap st) s !! i = Some f)
  ∨ (∃ v, slice_index s i st = Panicked v st).
Proof.
  unfold slice_index. case_decide; [|right; by eexists].
  unfold bind, gets.
  destruct (slice_elems (heap st) s !! i) as [f|] eqn:Hf.
  - left. by exists f.
  - right. by eexists.
Qed.

Lemma wrap_loop_S c ctx n final st :
  wrap_loop c ctx (S n) final st
  = match slice_index (constructors c) n st with
    | Returned f st' =>
        match call_constructor n f ctx final st' with
        | Returned final' st'' => wrap_loop c ctx n final' st''
        | Panicked v st'' => Panicked v st''
        end
    | Panicked v st' => Panicked v st'
    end.
Proof. reflexivity. Qed.

Lemma reverse_seq_S n : reverse (seq 0 (S n)) = n :: reverse (seq 0 n).
Proof. by rewrite seq_S, reverse_snoc. Qed.

Lemma wrap_loop_calls c ctx n final st :
  ∃ evs : list Event,
    trace (final_state (wrap_loop c ctx n final st)) = trace st ++ evs
    ∧ heap (final_state (wrap_loop c ctx n final st)) = heap st
    ∧ Forall (called_with ctx) evs
    ∧ Forall (calls_member (slice_elems (heap st) (constructors c))) evs
    ∧ constructor_calls evs `prefix_of` reverse (seq 0 n)
    ∧ (has_returned (wrap_loop c ctx n final st) →
       constructor_calls evs = reverse (seq 0 n)).
Proof.
  revert final st. induction n as [|n IH]; intros final st.
  { exists []. simpl. rewrite app_nil_r. split_and!; by try constructor. }
  rewrite reverse_seq_S, wrap_loop_S.
  destruct (slice_index_cases (constructors c) n st)
    as [(f & -> & Hf)|(v & ->)]; last first.
  { exists []. simpl. rewrite app_nil_r.
    split_and!; try done; try by constructor. apply prefix_nil. }
  pose proof (call_constructor_heap n f ctx final st) as Hheap.
  pose proof (call_constructor_trace n f ctx final st) as Htrace.
  destruct (call_constructor n f ctx final st) as [h' st'|v st'];
    simpl in Hheap, Htrace.
  - destruct (IH h' st') as (evs & Ht & Hh & Hctx & Hmem & Hpre & Hret).
    exists (EvConstructor n f ctx final :: evs).
    rewrite Ht, Hh, Htrace, Hheap, <-app_assoc. simpl.
    split_and!; try done.
    + by constructor.
    + constructor; [done|]. by rewrite <-Hheap.
    + by apply prefix_cons.
    + intros Hr. by rewrite Hret.
  - exists [EvConstructor n f ctx final]. simpl.
    split_and!; try done.
    + by repeat constructor.
    + by repeat constructor.
    + apply prefix_cons, prefix_nil.
Qed.

Lemma ThenContext_eq c h st :
  ThenContext context_TODO c h st
  = match h with
    | CtxHandler_nil =>
        Panicked (PanicString "nil is not allowed") (after_TODO context_TODO st)
    | CtxHandler_impl _ =>
        wrap_loop c (fold_ctx context_TODO st) (s_len (constructors c)) h
          (after_TODO context_TODO st)
    end.
Proof.
  unfold ThenContext, bind. rewrite call_TODO_eq.
  destruct h as [|serve]; simpl; [done|].
  by destruct (wrap_loop _ _ _ _ _).
Qed.

Lemma ThenContext_calls c h st :
  ∃ evs : list Event,
    trace (final_state (ThenContext context_TODO c h st))
      = trace st ++ EvTODO (fold_ctx context_TODO st) :: evs
    ∧ heap (final_state (ThenContext context_TODO c h st)) = heap st
    ∧ Forall (called_with (fold_ctx context_TODO st)) evs
    ∧ Forall (calls_member (slice_elems (heap st) (constructors c))) evs
    ∧ constructor_calls evs `prefix_of` reverse (seq 0 (s_len (constructors c)))
    ∧ (has_returned (ThenContext context_TODO c h st) →
       constructor_calls evs = reverse (seq 0 (s_len (constructors c))))
    ∧ (CtxHandler_is_nil h = true → evs = []).
Proof.
  rewrite ThenContext_eq. destruct h as [|serve].
  { exists []. simpl. split_and!; try done; try by constructor.
    apply prefix_nil. }
  destruct (wrap_loop_calls c (fold_ctx context_TODO st)
              (s_len (constructors c)) (CtxHandler_impl serve)
              (after_TODO context_TODO st))
    as (evs & Ht & Hh & Hctx & Hmem & Hpre & Hret).
  exists evs. rewrite Ht, Hh.
  split_and!; try done. simpl. by rewrite <-app_assoc.
Qed.

Lemma Then_final_state c h st :
  final_state (Then context_TODO c h st)
  = final_state (ThenContext context_TODO c h st).
Proof.
  rewrite Then_via_ThenContext. unfold bind.
  by destruct (ThenContext context_TODO c h st).
Qed.

Lemma Then_has_returned c h st :
  has_returned (Then context_TODO c h st)
  ↔ has_returned (ThenContext context_TODO c h st).
Proof.
  rewrite Then_via_ThenContext. unfold bind.
  by destruct (ThenContext context_TODO c h st).
Qed.

(** ** A fold reads the store through the chain's slice only *)

Lemma slice_index_set_heap s i st σ :
  slice_elems σ s = slice_elems (heap st) s →
  slice_index s i (set_heap σ st) = map_state (set_heap σ) (slice_index s i st).
Proof.
  intros Hσ. unfold slice_index. case_decide; [|done].
  unfold bind, gets. simpl. rewrite Hσ.
  by destruct (slice_elems (heap st) s !! i).
Qed.

Lemma wrap_loop_set_heap c ctx n final st σ :
  slice_elems σ (constructors c) = slice_elems (heap st) (constructors c) →
  wrap_loop c ctx n final (set_heap σ st)
  = map_state (set_heap σ) (wrap_loop c ctx n final st).
Proof.
  revert final st. induction n as [|n IH]; intros final st Hσ; [done|].
  rewrite !wrap_loop_S, slice_index_set_heap by done.
  destruct (slice_index_cases (constructors c) n st)
    as [(f & -> & Hf)|(v & ->)]; [|done].
  simpl. rewrite call_constructor_set_heap.
  pose proof (call_constructor_heap n f ctx final st) as Hheap.
  destruct (call_constructor n f ctx final st) as [h' st'|v st']; [|done].
  simpl in *. apply IH. by rewrite Hheap.
Qed.

Lemma ThenContext_set_heap c h st σ :
  slice_elems σ (constructors c) = slice_elems (heap st) (constructors c) →
  ThenContext context_TODO c h (set_heap σ st)
  = map_state (set_heap σ) (ThenContext context_TODO c h st).
Proof.
  intros Hσ. unfold ThenContext, bind at 1 4. rewrite !call_TODO_eq.
  destruct h as [|serve]; [done|].
  unfold bind at 1 3. simpl. rewrite !bind_ret_r.
  by apply (wrap_loop_set_heap c _ _ _ (after_TODO context_TODO st)).
Qed.

Lemma map_state_bind_ret {A B} (f : State → State) (g : A → B)
    (o : Outcome State A) :
  match map_state f o with
  | Returned a s => Returned (g a) s
  | Panicked v s => Panicked v s
  end
  = map_state f match o with
                | Returned a s => Returned (g a) s
                | Panicked v s => Panicked v s
                end.
Proof. by destruct o. Qed.

Lemma Then_set_heap c h st σ :
  slice_elems σ (constructors c) = slice_elems (heap st) (constructors c) →
  Then context_TODO c h (set_heap σ st)
  = map_state (set_heap σ) (Then context_TODO c h st).
Proof.
  intros Hσ. rewrite !Then_via_ThenContext. unfold bind, ret.
  rewrite ThenContext_set_heap by done.
  apply map_state_bind_ret.
Qed.

(** ** The store: allocation and copies *)

Lemma returns_bind {A B} (m : M A) (k : A → M B) st (Q : B → State → Prop) :
  returns m st (λ a st', returns (k a) st' Q) → returns (bind m k) st Q.
Proof. unfold returns, bind. by destruct (m st). Qed.

Lemma returns_mono {A} (m : M A) st (P Q : A → State → Prop) :
  returns m st P → (∀ a st', P a st' → Q a st') → returns m st Q.
Proof. unfold returns. destruct (m st); [eauto|done]. Qed.

Lemma same_but_heap_trans st1 st2 st3 :
  same_but_heap st1 st2 → same_but_heap st2 st3 → same_but_heap st1 st3.
Proof. intros [??] [??]. split; congruence. Qed.

Lemma same_but_heap_eq st st' :
  same_but_heap st st' → st' = set_heap (heap st') st.
Proof. destruct st, st'. intros [??]; simpl in *. by subst. Qed.

Lemma slice_elems_length_le σ s : length (slice_elems σ s) ≤ s_len s.
Proof.
  unfold slice_elems. destruct (s_arr s); simpl; [|lia].
  rewrite length_take. lia.
Qed.

Lemma slice_wf_weaken σ σ' s : σ ⊆ σ' → slice_wf σ s → slice_wf σ' s.
Proof.
  intros Hsub. unfold slice_wf. destruct (s_arr s) as [l|]; [|done].
  destruct (σ !! l) as [a|] eqn:Hl; [|done].
  by rewrite (lookup_weaken _ _ _ _ Hl Hsub).
Qed.

Lemma slice_elems_weaken σ σ' s :
  σ ⊆ σ' → slice_wf σ s → slice_elems σ' s = slice_elems σ s.
Proof.
  intros Hsub. unfold slice_wf, slice_elems. destruct (s_arr s) as [l|]; [|done].
  destruct (σ !! l) as [a|] eqn:Hl; [|done].
  by rewrite (lookup_weaken _ _ _ _ Hl Hsub).
Qed.

Lemma chain_holds_weaken σ σ' c cs :
  σ ⊆ σ' → chain_holds σ c cs → chain_holds σ' c cs.
Proof.
  intros Hsub [Hwf <-]. split; [by eapply slice_wf_weaken|].
  by apply slice_elems_weaken.
Qed.

Lemma fresh_slice_weaken σ σ' s : σ ⊆ σ' → fresh_slice σ' s → fresh_slice σ s.
Proof.
  intros Hsub. unfold fresh_slice. destruct (s_arr s) as [l|]; [|done].
  intros Hl. by eapply lookup_weaken_None.
Qed.

Lemma fresh_loc_None σ : σ !! fresh (dom σ) = None.
Proof. apply not_elem_of_dom, is_fresh. Qed.

Lemma alloc_array_spec (a : list Constructor) st :
  returns (alloc_array a) st (λ l st',
    heap st !! l = None ∧ heap st' = <[l := a]> (heap st) ∧ same_but_heap st st').
Proof.
  unfold returns, alloc_array, bind, gets, modify, ret. simpl.
  split_and!; try done. apply fresh_loc_None.
Qed.

Lemma go_make_spec n st :
  returns (go_make n) st (λ s st', ∃ l,
    s = {| s_arr := Some l; s_off := 0; s_len := n; s_cap := n |}
    ∧ heap st !! l = None
    ∧ heap st' = <[l := replicate n None]> (heap st)
    ∧ same_but_heap st st').
Proof.
  unfold go_make. apply returns_bind.
  eapply returns_mono; [apply alloc_array_spec|].
  intros l st' (? & ? & ?). unfold returns, ret. by exists l.
Qed.

Lemma go_copy_spec l n (a : list Constructor) src st :
  heap st !! l = Some a →
  length a = n →
  length (slice_elems (heap st) src) = n →
  returns (go_copy {| s_arr := Some l; s_off := 0; s_len := n; s_cap := n |} src)
    st (λ _ st',
      heap st' = <[l := slice_elems (heap st) src]> (heap st)
      ∧ same_but_heap st st').
Proof.
  intros Hl Ha Hsrc.
  unfold returns, go_copy, slice_store, bind, gets, modify, ret. simpl.
  split; [|done].
  pose proof (slice_elems_length_le (heap st) src).
  rewrite Nat.min_l by lia. rewrite take_ge by lia.
  apply map_eq. intros l'. destruct (decide (l = l')) as [<-|Hne].
  - rewrite lookup_alter_eq, lookup_insert_eq, Hl. simpl. f_equal.
    rewrite <-(app_nil_r a). rewrite list_inserts_0_r by lia.
    apply app_nil_r.
  - by rewrite lookup_alter_ne, lookup_insert_ne.
Qed.

Lemma slice_store_nil s i st :
  slice_store s i [] st = Returned tt st.
Proof.
  unfold slice_store. destruct (s_arr s) as [l|]; [|done].
  unfold bind, gets, modify. f_equal.
  rewrite alter_id by done. by destruct st.
Qed.

(** [append] to a slice without spare capacity never writes to an array
    that exists. *)
Lemma go_append_full_spec s xs st :
  slice_wf (heap st) s → slice_wf (heap st) xs →
  s_len s = s_cap s →
  returns (go_append growslice_cap s xs) st (λ s' st',
    heap st ⊆ heap st'
    ∧ same_but_heap st st'
    ∧ slice_wf (heap st') s'
    ∧ slice_elems (heap st') s' = slice_elems (heap st) s ++ slice_elems (heap st) xs
    ∧ (s_arr s' = s_arr s ∨ fresh_slice (heap st) s')).
Proof.
  intros Hs Hxs Hfull.
  pose proof (slice_wf_length _ _ Hs) as Hls.
  pose proof (slice_wf_length _ _ Hxs) as Hlxs.
  unfold go_append. apply returns_bind. unfold returns at 1, gets.
  case_decide as Hfit.
  - assert (s_len xs = 0) as Hx0 by lia.
    assert (slice_elems (heap st) xs = []) as ->.
    { apply length_zero_iff_nil. lia. }
    apply returns_bind. unfold returns at 1. rewrite slice_store_nil.
    unfold returns, ret. rewrite Hx0, Nat.add_0_r, app_nil_r.
    destruct s. split_and!; by try left.
  - apply returns_bind.
    eapply returns_mono; [apply alloc_array_spec|].
    intros l st' (Hl & Hst' & Hsame). unfold returns, ret.
    rewrite Hst'. split_and!; try done.
    + by apply insert_subseteq.
    + unfold slice_wf. simpl. rewrite lookup_insert_eq.
      rewrite !length_app, length_replicate. lia.
    + unfold slice_elems at 1. simpl. rewrite lookup_insert_eq. simpl.
      rewrite app_assoc. apply take_app_length'.
      rewrite length_app. lia.
    + right. by unfold fresh_slice.
Qed.

Lemma nil_slice_wf σ : slice_wf σ nil_slice.
Proof. done. Qed.

Lemma New_spec xs st :
  slice_wf (heap st) xs →
  returns (New growslice_cap xs) st (λ c st',
    heap st ⊆ heap st'
    ∧ same_but_heap st st'
    ∧ chain_holds (heap st') c (slice_elems (heap st) xs)
    ∧ fresh_slice (heap st) (constructors c)).
Proof.
  intros Hxs. unfold New. apply returns_bind.
  eapply returns_mono;
    [apply (go_append_full_spec nil_slice xs st);
       [apply nil_slice_wf|done|reflexivity]|].
  intros s' st' (Hsub & Hsame & Hwf & Helems & Hfresh).
  unfold returns, ret. split_and!; try done.
  destruct Hfresh as [Harr|]; [|done].
  unfold fresh_slice. simpl in *. by rewrite Harr.
Qed.

Lemma Append_spec c xs st :
  slice_wf (heap st) (constructors c) → slice_wf (heap st) xs →
  returns (Append growslice_cap c xs) st (λ c' st',
    heap st ⊆ heap st'
    ∧ same_but_heap st st'
    ∧ chain_holds (heap st') c'
        (slice_elems (heap st) (constructors c) ++ slice_elems (heap st) xs)
    ∧ fresh_slice (heap st) (constructors c')).
Proof.
  intros Hc Hxs. unfold Append.
  pose proof (slice_wf_length _ _ Hc) as Hlc.
  apply returns_bind. eapply returns_mono; [apply go_make_spec|].
  intros newCons st1 (l & -> & Hl & Hst1 & Hsame1).
  assert (heap st ⊆ heap st1) as Hsub1.
  { rewrite Hst1. by apply insert_subseteq. }
  apply returns_bind.
  eapply returns_mono;
    [apply (go_copy_spec l (s_len (constructors c)) (replicate (s_len (constructors c)) None))|].
  { rewrite Hst1. apply lookup_insert_eq. }
  { apply length_replicate. }
  { by rewrite (slice_elems_weaken (heap st)). }
  intros _ st2 (Hst2 & Hsame2).
  rewrite (slice_elems_weaken (heap st)) in Hst2 by done.
  rewrite Hst1, insert_insert_eq in Hst2.
  assert (heap st ⊆ heap st2) as Hsub2.
  { rewrite Hst2. by apply insert_subseteq. }
  set (newCons := {| s_arr := Some l; s_off := 0;
                     s_len := s_len (constructors c);
                     s_cap := s_len (constructors c) |}).
  assert (slice_wf (heap st2) newCons) as Hwf2.
  { unfold slice_wf. simpl. rewrite Hst2, lookup_insert_eq. lia. }
  assert (slice_elems (heap st2) newCons = slice_elems (heap st) (constructors c))
    as Helems2.
  { unfold slice_elems at 1. simpl. rewrite Hst2, lookup_insert_eq. simpl.
    apply take_ge. lia. }
  apply returns_bind.
  eapply returns_mono;
    [apply (go_append_full_spec newCons xs st2);
       [done|by eapply slice_wf_weaken|done]|].
  intros newCons' st3 (Hsub3 & Hsame3 & Hwf3 & Helems3 & _).
  rewrite Helems2, (slice_elems_weaken (heap st) (heap st2) xs) in Helems3
    by done.
  apply returns_bind.
  eapply returns_mono; [by apply New_spec|].
  intros newChain st4 (Hsub4 & Hsame4 & Hholds & Hfresh).
  unfold returns, ret. rewrite Helems3 in Hholds.
  assert (heap st ⊆ heap st3) as Hsub by by etrans.
  split_and!; try done.
  - by etrans.
  - eauto using same_but_heap_trans.
  - by eapply fresh_slice_weaken.
Qed.

(** ** Writes through the caller's slices *)

Lemma slice_store_state s i (xs : list Constructor) st :
  slice_store s i xs st
  = Returned tt (set_heap
      match s_arr s with
      | None => heap st
      | Some l => alter (list_inserts (s_off s + i) xs) l (heap st)
      end st).
Proof. unfold slice_store. destruct (s_arr s); [done|]. by destruct st. Qed.

(** A write through a slice of the store [σ0] changes no array outside [σ0]. *)
Lemma slice_assign_frame σ0 s i (x : Constructor) st :
  slice_wf σ0 s →
  ∃ σ', final_state (slice_assign s i x st) = set_heap σ' st
        ∧ writes_within σ0 (heap st) σ'.
Proof.
  intros Hwf. unfold slice_assign. case_decide; last first.
  { exists (heap st). by destruct st. }
  rewrite slice_store_state. simpl. eexists; split; [done|].
  intros l Hl. revert Hwf. unfold slice_wf.
  destruct (s_arr s) as [l'|]; [|done].
  destruct (decide (l' = l)) as [->|]; [by rewrite Hl|].
  by rewrite lookup_alter_ne.
Qed.

Lemma slice_elems_fresh_frame σ0 σ σ' s :
  slice_wf σ s → fresh_slice σ0 s →
  writes_within σ0 σ σ' →
  slice_wf σ' s ∧ slice_elems σ' s = slice_elems σ s.
Proof.
  unfold slice_wf, slice_elems, fresh_slice. intros Hwf Hfresh Hframe.
  destruct (s_arr s) as [l|]; [|done].
  by rewrite (Hframe l Hfresh).
Qed.

Lemma variadic_spec (args : list Constructor) st :
  returns (variadic args) st (λ s st',
    heap st ⊆ heap st'
    ∧ same_but_heap st st'
    ∧ slice_wf (heap st') s
    ∧ slice_elems (heap st') s = args).
Proof.
  unfold variadic. destruct args as [|a args]; [done|].
  apply returns_bind. eapply returns_mono; [apply alloc_array_spec|].
  intros l st' (Hl & Hst' & Hsame). unfold returns, ret.
  split_and!; try done.
  - rewrite Hst'. by apply insert_subseteq.
  - unfold slice_wf. simpl. rewrite Hst', lookup_insert_eq. simpl. lia.
  - unfold slice_elems. simpl. rewrite Hst', lookup_insert_eq. simpl.
    by rewrite firstn_all.
Qed.

(** ** Middleware that calls the following handler *)

Lemma call_passthrough i pre ctx (next : CtxHandler) st :
  returns (call_constructor i (passthrough pre) ctx next) st (λ f st',
    heap st' = heap st ∧ world st' = world st
    ∧ ∀ ctx' w r wd,
        CtxHandler_ServeHTTP f ctx' w r wd
        = (pre ctx' w r ;;; CtxHandler_ServeHTTP next ctx' w r) wd).
Proof. done. Qed.

Lemma nested_passthrough ctx i pres h st :
  returns (nested ctx i (map passthrough pres) h) st (λ f st',
    heap st' = heap st ∧ world st' = world st
    ∧ ∀ ctx' w r wd,
        CtxHandler_ServeHTTP f ctx' w r wd = serve_through pres h ctx' w r wd).
Proof.
  revert i st. induction pres as [|pre pres IH]; intros i st; [done|].
  simpl. apply returns_bind. eapply returns_mono; [apply IH|].
  intros inner st' (Hheap & Hworld & Hserve).
  eapply returns_mono; [apply call_passthrough|].
  intros f st'' (Hheap' & Hworld' & Hserve'). split_and!; try congruence.
  intros ctx' w r wd. rewrite Hserve'. apply bind_ext.
  intros _ wd'. apply Hserve.
Qed.

Lemma Then_passthrough c pres h st :
  chain_holds (heap st) c (map passthrough pres) →
  CtxHandler_is_nil h = false →
  returns (Then context_TODO c h) st (λ p st',
    heap st' = heap st
    ∧ world st' = (context_TODO (world st)).2
    ∧ ∀ w r wd,
        Handler_ServeHTTP p w r wd
        = serve_through pres h (fold_ctx context_TODO st) w r wd).
Proof.
  intros Hc Hh. unfold returns. rewrite (Then_refines c _ h st Hc Hh).
  unfold Then_spec, bind. rewrite call_TODO_eq.
  pose proof (nested_passthrough (fold_ctx context_TODO st) 0 pres h
                (after_TODO context_TODO st)) as Hn.
  unfold returns in Hn.
  destruct (nested _ _ _ _ _) as [f st'|]; [|done].
  destruct Hn as (Hheap & Hworld & Hserve). unfold ret.
  split_and!; try done. intros w r wd. apply Hserve.
Qed.

(** * The claims of the specification *)

(** C1.  For a chain that holds the constructors [cs] and a terminal [h]
    that is not nil, [ThenContext] and [Then] compute the manually nested
    calls [c1(ctx, c2(ctx, ... cn(ctx, h)))]: the constructor at index 0 is
    applied last and is the outermost layer, the terminal is innermost.
    When every middleware calls the following handler, a request to the
    result passes through the middleware in index order and then reaches
    the terminal. *)
Theorem Then_nests_constructors c cs h st :
  chain_holds (heap st) c cs →
  CtxHandler_is_nil h = false →
  ThenContext context_TODO c h st = ThenContext_spec context_TODO cs h st
  ∧ Then context_TODO c h st = Then_spec context_TODO cs h st
  ∧ (∀ pres, cs = map passthrough pres →
       returns (Then context_TODO c h) st (λ p _, ∀ w r wd,
         Handler_ServeHTTP p w r wd
         = serve_through pres h (fold_ctx context_TODO st) w r wd)).
Proof.
  intros Hc Hh. split_and!.
  - by apply ThenContext_refines.
  - by apply Then_refines.
  - intros pres ->. eapply returns_mono; [by apply Then_passthrough|].
    by intros p st' (_ & _ & Hserve).
Qed.

(** C2.  With a nil terminal, [Then] and [ThenContext] panic with
    ["nil is not allowed"] for every chain: nothing is returned, and the
    state of the panic is the one reached by [context.TODO()] alone, with
    no constructor called and the store untouched. *)
Theorem fold_nil_panics c st :
  Then context_TODO c CtxHandler_nil st
    = Panicked (PanicString "nil is not allowed") (after_TODO context_TODO st)
  ∧ ThenContext context_TODO c CtxHandler_nil st
    = Panicked (PanicString "nil is not allowed") (after_TODO context_TODO st)
  ∧ trace (after_TODO context_TODO st)
    = trace st ++ [EvTODO (fold_ctx context_TODO st)]
  ∧ constructor_calls (trace (after_TODO context_TODO st))
    = constructor_calls (trace st)
  ∧ heap (after_TODO context_TODO st) = heap st.
Proof.
  split_and!; try done.
  - by rewrite Then_via_ThenContext; unfold bind; rewrite ThenContext_eq.
  - by rewrite ThenContext_eq.
  - unfold constructor_calls. simpl. rewrite omap_app. simpl. apply app_nil_r.
Qed.

(** C5.  A chain of no constructor is the identity: [ThenContext] returns
    the terminal itself, [Then] returns the terminal under the adapter, and
    a request to that result is a request to the terminal. *)
Theorem empty_chain_identity c h st :
  s_len (constructors c) = 0 →
  CtxHandler_is_nil h = false →
  ThenContext context_TODO c h st = Returned h (after_TODO context_TODO st)
  ∧ Then context_TODO c h st
    = Returned
        (Handler_of_HandlerFunc
           (CtxHandlerToHandlerFunc (fold_ctx context_TODO st) h))
        (after_TODO context_TODO st)
  ∧ ∀ w r,
      Handler_ServeHTTP
        (Handler_of_HandlerFunc
           (CtxHandlerToHandlerFunc (fold_ctx context_TODO st) h)) w r
      = CtxHandler_ServeHTTP h (fold_ctx context_TODO st) w r.
Proof.
  intros Hlen Hh.
  assert (ThenContext context_TODO c h st
          = Returned h (after_TODO context_TODO st)) as HTC.
  { rewrite ThenContext_eq, Hlen. by destruct h. }
  split_and!; try done.
  rewrite Then_via_ThenContext. unfold bind. by rewrite HTC.
Qed.

(** C7.  The variants that take a bare function.  [ThenFunc] does what is
    asked: with a nil function it panics exactly as [Then(nil)] does, and
    with a function that is not nil it is [Then(CtxHandlerFunc(fn))].
    [ThenFuncContext] does not type-check: for a nil function it returns the
    call [c.Then(nil)], an [http.Handler], where its declared result is a
    [CtxHandler], and [http.Handler] does not implement [CtxHandler]; its
    other [return] is well typed, and so are both of [ThenFunc]. *)
Theorem ThenFuncContext_nil_return_ill_typed c st :
  type_checks ThenFuncContext_decl = false
  ∧ ill_typed_returns ThenFuncContext_decl = [call_Then]
  ∧ implements T_http_Handler T_CtxHandler = false
  ∧ type_checks ThenFunc_decl = true
  ∧ ThenFunc context_TODO c None st = Then context_TODO c CtxHandler_nil st
  ∧ Then context_TODO c CtxHandler_nil st
    = Panicked (PanicString "nil is not allowed") (after_TODO context_TODO st)
  ∧ ∀ fn,
      ThenFunc context_TODO c (Some fn) st
      = Then context_TODO c (CtxHandler_of_CtxHandlerFunc (Some fn)) st
      ∧ CtxHandler_is_nil (CtxHandler_of_CtxHandlerFunc (Some fn)) = false.
Proof.
  split_and!; try done.
  by rewrite Then_via_ThenContext; unfold bind; rewrite ThenContext_eq.
Qed.

(** C8.  The two shapes of a fold agree: [Then] returns or panics as
    [ThenContext] does, in the same state, and its result is the adapter
    [CtxHandlerToHandlerFunc] over the context of the fold and the handler
    [ThenContext] returns; a call of it with [(w, r)] is a call of that
    handler with [(ctx, w, r)]. *)
Theorem Then_adapts_ThenContext c h st :
  Then context_TODO c h st
  = match ThenContext context_TODO c h st with
    | Returned final st' =>
        Returned
          (Handler_of_HandlerFunc
             (CtxHandlerToHandlerFunc (fold_ctx context_TODO st) final)) st'
    | Panicked v st' => Panicked v st'
    end
  ∧ ∀ ctx final w r,
      Handler_ServeHTTP
        (Handler_of_HandlerFunc (CtxHandlerToHandlerFunc ctx final)) w r
      = CtxHandler_ServeHTTP final ctx w r.
Proof. split; [|done]. by rewrite Then_via_ThenContext. Qed.

(** ** The fold as the caller's code sees it *)






(** C3.  [Append] leaves its receiver alone: it returns, writes to no
    array that exists and changes nothing but the store; the receiver
    holds the same constructors afterwards, and a fold of it after the call
    is the fold before the call.  A second chain appended to the same base
    leaves the base and the first one as they were. *)
Theorem Append_leaves_receiver c cs more st :
  chain_holds (heap st) c cs →
  slice_wf (heap st) more →
  returns (Append growslice_cap c more) st (λ ext st',
    heap st ⊆ heap st'
    ∧ same_but_heap st st'
    ∧ chain_holds (heap st') c cs
    ∧ (∀ h, ThenContext context_TODO c h st'
            = map_state (set_heap (heap st')) (ThenContext context_TODO c h st))
    ∧ (∀ h, Then context_TODO c h st'
            = map_state (set_heap (heap st')) (Then context_TODO c h st))
    ∧ ∀ more2, slice_wf (heap st) more2 →
        returns (Append growslice_cap c more2) st' (λ ext2 st'',
          chain_holds (heap st'') c cs
          ∧ chain_holds (heap st'') ext (cs ++ slice_elems (heap st) more)
          ∧ chain_holds (heap st'') ext2 (cs ++ slice_elems (heap st) more2))).
Proof.
  intros Hc Hmore. pose proof Hc as [Hwf Hcs].
  eapply returns_mono; [by apply Append_spec|].
  intros ext st' (Hsub & Hsame & Hext & _). rewrite Hcs in Hext.
  pose proof (chain_holds_weaken _ _ _ _ Hsub Hc) as Hc'.
  assert (slice_elems (heap st') (constructors c)
          = slice_elems (heap st) (constructors c)) as Helems.
  { by apply slice_elems_weaken. }
  split_and!; try done.
  - intros h. rewrite (same_but_heap_eq _ _ Hsame) at 1.
    by apply ThenContext_set_heap.
  - intros h. rewrite (same_but_heap_eq _ _ Hsame) at 1.
    by apply Then_set_heap.
  - intros more2 Hmore2. destruct Hc' as [Hwf' Hcs'].
    eapply returns_mono;
      [apply Append_spec; [done|by eapply slice_wf_weaken]|].
    intros ext2 st'' (Hsub' & _ & Hext2 & _).
    rewrite Hcs', (slice_elems_weaken (heap st) (heap st') more2) in Hext2
      by done.
    split_and!; try done; by eapply chain_holds_weaken.
Qed.

(** C4.  [Append(New(cs), more)] holds [cs] followed by [more], in order,
    and the base chain still holds [cs].  For [base := New(A)] and
    [ext := base.Append(B)], with [A] and [B] middleware that call the
    following handler, a request to [base.Then(term)] passes through [A]
    only before [term], and a request to [ext.Then(term)] through [A], then
    [B], before [term]. *)
Theorem Append_extends_sequence xs more st :
  slice_wf (heap st) xs →
  slice_wf (heap st) more →
  returns (base <- New growslice_cap xs ;;
           ext <- Append growslice_cap base more ;;
           ret (base, ext)) st
    (λ chains st',
       chain_holds (heap st') chains.1 (slice_elems (heap st) xs)
       ∧ chain_holds (heap st') chains.2
           (slice_elems (heap st) xs ++ slice_elems (heap st) more))
  ∧ ∀ A B term, CtxHandler_is_nil term = false →
      returns (args <- variadic [passthrough A] ;;
               base <- New growslice_cap args ;;
               args <- variadic [passthrough B] ;;
               ext <- Append growslice_cap base args ;;
               p1 <- Then context_TODO base term ;;
               p2 <- Then context_TODO ext term ;;
               ret (p1, p2)) st
        (λ pipes _, ∃ ctx1 ctx2, ∀ w r wd,
           Handler_ServeHTTP pipes.1 w r wd
           = (A ctx1 w r ;;; CtxHandler_ServeHTTP term ctx1 w r) wd
           ∧ Handler_ServeHTTP pipes.2 w r wd
             = (A ctx2 w r ;;; B ctx2 w r ;;;
                CtxHandler_ServeHTTP term ctx2 w r) wd).
Proof.
  intros Hxs Hmore. split.
  - apply returns_bind. eapply returns_mono; [by apply New_spec|].
    intros base st1 (Hsub1 & _ & Hbase & _).
    apply returns_bind. pose proof Hbase as [Hwf1 Hel1].
    eapply returns_mono;
      [apply Append_spec; [done|by eapply slice_wf_weaken]|].
    intros ext st2 (Hsub2 & _ & Hext & _). unfold returns, ret. simpl.
    rewrite Hel1, (slice_elems_weaken (heap st) (heap st1) more) in Hext
      by done.
    split; [by eapply chain_holds_weaken|done].
  - intros A B term Hterm.
    apply returns_bind. eapply returns_mono; [apply variadic_spec|].
    intros a st1 (_ & _ & Hwfa & Hela).
    apply returns_bind. eapply returns_mono; [by apply New_spec|].
    intros base st2 (_ & _ & Hbase & _). rewrite Hela in Hbase.
    apply returns_bind. eapply returns_mono; [apply variadic_spec|].
    intros b st3 (Hsub3 & _ & Hwfb & Helb).
    pose proof (chain_holds_weaken _ _ _ _ Hsub3 Hbase) as Hbase3.
    pose proof Hbase3 as [Hwf3 Hel3].
    apply returns_bind. eapply returns_mono; [by apply Append_spec|].
    intros ext st4 (Hsub4 & _ & Hext & _). rewrite Hel3, Helb in Hext.
    pose proof (chain_holds_weaken _ _ _ _ Hsub4 Hbase3) as Hbase4.
    apply returns_bind.
    eapply returns_mono; [by apply (Then_passthrough base [A] term)|].
    intros p1 st5 (Hheap5 & _ & Hp1).
    apply returns_bind. rewrite <-Hheap5 in Hext.
    eapply returns_mono; [by apply (Then_passthrough ext [A; B] term)|].
    intros p2 st6 (_ & _ & Hp2). unfold returns, ret. simpl.
    exists (fold_ctx context_TODO st4), (fold_ctx context_TODO st5).
    intros w r wd. by rewrite Hp1, Hp2.
Qed.

(** C6.  Two folds of one chain, with terminals [h1] and [h2]: each result
    is the nesting of the chain's constructors around its own terminal,
    the folds leave the store as it was, and each fold calls every
    constructor of the chain exactly once, from the last index down to 0.
    When every middleware calls the following handler, a request to the
    first result reaches [h1] and a request to the second reaches [h2]. *)
Theorem folds_are_independent c cs h1 h2 st p1 st1 p2 st2 :
  chain_holds (heap st) c cs →
  CtxHandler_is_nil h1 = false →
  CtxHandler_is_nil h2 = false →
  Then context_TODO c h1 st = Returned p1 st1 →
  Then context_TODO c h2 st1 = Returned p2 st2 →
  Then_spec context_TODO cs h1 st = Returned p1 st1
  ∧ Then_spec context_TODO cs h2 st1 = Returned p2 st2
  ∧ heap st1 = heap st ∧ heap st2 = heap st
  ∧ (∃ evs1 evs2 : list Event,
       trace st1 = trace st ++ EvTODO (fold_ctx context_TODO st) :: evs1
       ∧ trace st2 = trace st1 ++ EvTODO (fold_ctx context_TODO st1) :: evs2
       ∧ constructor_calls evs1 = reverse (seq 0 (length cs))
       ∧ constructor_calls evs2 = reverse (seq 0 (length cs))
       ∧ Forall (calls_member cs) evs1
       ∧ Forall (calls_member cs) evs2)
  ∧ (∀ pres, cs = map passthrough pres → ∀ w r wd,
       Handler_ServeHTTP p1 w r wd
       = serve_through pres h1 (fold_ctx context_TODO st) w r wd
       ∧ Handler_ServeHTTP p2 w r wd
         = serve_through pres h2 (fold_ctx context_TODO st1) w r wd).
Proof.
  intros Hc Hh1 Hh2 HT1 HT2.
  destruct (ThenContext_calls c h1 st)
    as (evs1 & Ht1 & Hheap1 & _ & Hmem1 & _ & Hret1 & _).
  destruct (ThenContext_calls c h2 st1)
    as (evs2 & Ht2 & Hheap2 & _ & Hmem2 & _ & Hret2 & _).
  rewrite <-(Then_final_state c h1 st), HT1 in Ht1, Hheap1.
  rewrite <-(Then_final_state c h2 st1), HT2 in Ht2, Hheap2.
  assert (constructor_calls evs1 = reverse (seq 0 (s_len (constructors c))))
    as Hcalls1 by by apply Hret1, Then_has_returned; rewrite HT1.
  assert (constructor_calls evs2 = reverse (seq 0 (s_len (constructors c))))
    as Hcalls2 by by apply Hret2, Then_has_returned; rewrite HT2.
  simpl in *.
  assert (chain_holds (heap st1) c cs) as Hc1 by by rewrite Hheap1.
  pose proof (chain_holds_length _ _ _ Hc) as Hlen.
  destruct Hc as [Hwf Hcs]. destruct Hc1 as [Hwf1 Hcs1].
  rewrite Hcs in Hmem1. rewrite Hcs1 in Hmem2.
  split_and!.
  - by rewrite <-(Then_refines c cs h1 st).
  - by rewrite <-(Then_refines c cs h2 st1).
  - done.
  - congruence.
  - exists evs1, evs2. rewrite Hlen. split_and!; auto.
  - intros pres ->.
    pose proof (Then_passthrough c pres h1 st) as H1.
    pose proof (Then_passthrough c pres h2 st1) as H2.
    unfold returns in H1, H2. rewrite HT1 in H1. rewrite HT2 in H2.
    intros w r wd. split; [by apply H1|by apply H2].
Qed.

(** C10.  [New] and [Append] copy the constructors they are given into an
    array of their own: whatever is written afterwards to the arrays that
    existed before the call, the argument's included, the new chain holds
    the same constructors and every fold of it is unchanged; an assignment
    [s[i] = x] through any slice that existed before the call is such a
    write. *)
Theorem constructors_are_copied xs st :
  slice_wf (heap st) xs →
  returns (New growslice_cap xs) st (λ c st',
    isolated_from context_TODO (heap st) c (slice_elems (heap st) xs) st')
  ∧ (∀ c0, slice_wf (heap st) (constructors c0) →
       returns (Append growslice_cap c0 xs) st (λ c st',
         isolated_from context_TODO (heap st) c
           (slice_elems (heap st) (constructors c0)
            ++ slice_elems (heap st) xs) st'))
  ∧ (∀ s i (x : Constructor) st', slice_wf (heap st) s →
       ∃ σ', final_state (slice_assign s i x st') = set_heap σ' st'
             ∧ writes_within (heap st) (heap st') σ').
Proof.
  intros Hxs.
  assert (∀ c cs st', chain_holds (heap st') c cs →
            fresh_slice (heap st) (constructors c) →
            isolated_from context_TODO (heap st) c cs st') as Hframe.
  { intros c cs st' [Hwf Hcs] Hfresh σ' Hσ'.
    destruct (slice_elems_fresh_frame (heap st) (heap st') σ' (constructors c))
      as [Hwf' Hel']; try done.
    split_and!.
    - split; [done|congruence].
    - intros h. by apply ThenContext_set_heap.
    - intros h. by apply Then_set_heap. }
  split_and!.
  - eapply returns_mono; [by apply New_spec|].
    intros c st' (_ & _ & Hc & Hfresh). by apply Hframe.
  - intros c0 Hc0. eapply returns_mono; [by apply Append_spec|].
    intros c st' (_ & _ & Hc & Hfresh). by apply Hframe.
  - intros s i x st' Hs. by apply slice_assign_frame.
Qed.

(** * Further properties of the code *)

(** ** Helper facts *)

Lemma nested_app ctx i cs1 cs2 h st :
  nested ctx i (cs1 ++ cs2) h st
  = (inner <- nested ctx (i + length cs1) cs2 h ;; nested ctx i cs1 inner) st.
Proof.
  revert i st. induction cs1 as [|a cs1 IH]; intros i st; simpl.
  - rewrite Nat.add_0_r. symmetry. apply bind_ret_r.
  - unfold bind at 1. rewrite IH, <-Nat.add_succ_comm.
    unfold bind. by destruct (nested ctx (S i + length cs1) cs2 h st).
Qed.

Lemma nested_split ctx pre (f : Constructor) post h st :
  nested ctx 0 (pre ++ f :: post) h st
  = match nested ctx (S (length pre)) post h st with
    | Returned inner st1 =>
        match call_constructor (length pre) f ctx inner st1 with
        | Returned g st2 => nested ctx 0 pre g st2
        | Panicked v st2 => Panicked v st2
        end
    | Panicked v st1 => Panicked v st1
    end.
Proof.
  rewrite nested_app. simpl. unfold bind.
  by destruct (nested ctx (S (length pre)) post h st).
Qed.

Lemma nested_set_heap ctx i cs h st σ :
  nested ctx i cs h (set_heap σ st)
  = map_state (set_heap σ) (nested ctx i cs h st).
Proof.
  revert i st. induction cs as [|a cs IH]; intros i st; [done|].
  simpl. unfold bind. rewrite IH.
  destruct (nested ctx (S i) cs h st) as [inner st'|]; [|done].
  apply call_constructor_set_heap.
Qed.

Lemma ThenContext_spec_set_heap cs h st σ :
  ThenContext_spec context_TODO cs h (set_heap σ st)
  = map_state (set_heap σ) (ThenContext_spec context_TODO cs h st).
Proof.
  unfold ThenContext_spec, bind. rewrite !call_TODO_eq.
  apply (nested_set_heap _ _ _ _ (after_TODO context_TODO st)).
Qed.

Lemma Then_spec_set_heap cs h st σ :
  Then_spec context_TODO cs h (set_heap σ st)
  = map_state (set_heap σ) (Then_spec context_TODO cs h st).
Proof.
  unfold Then_spec, bind. rewrite !call_TODO_eq.
  pose proof (nested_set_heap (fold_ctx context_TODO st) 0 cs h
                (after_TODO context_TODO st) σ) as Hn.
  change (after_TODO context_TODO (set_heap σ st))
    with (set_heap σ (after_TODO context_TODO st)).
  change (fold_ctx context_TODO (set_heap σ st))
    with (fold_ctx context_TODO st).
  rewrite Hn.
  by destruct (nested (fold_ctx context_TODO st) 0 cs h
                 (after_TODO context_TODO st)).
Qed.

Lemma nested_passthrough_not_nil ctx i pres h st :
  CtxHandler_is_nil h = false →
  returns (nested ctx i (map passthrough pres) h) st (λ f _,
    CtxHandler_is_nil f = false).
Proof.
  intros Hh. destruct pres as [|pre pres]; [done|].
  simpl. apply returns_bind.
  eapply returns_mono; [apply nested_passthrough|]. by intros inner st' _.
Qed.

Lemma ThenContext_passthrough c pres h st :
  chain_holds (heap st) c (map passthrough pres) →
  CtxHandler_is_nil h = false →
  returns (ThenContext context_TODO c h) st (λ f st',
    heap st' = heap st
    ∧ CtxHandler_is_nil f = false
    ∧ ∀ ctx w r wd,
        CtxHandler_ServeHTTP f ctx w r wd = serve_through pres h ctx w r wd).
Proof.
  intros Hc Hh. unfold returns. rewrite (ThenContext_refines c _ h st Hc Hh).
  unfold ThenContext_spec, bind. rewrite call_TODO_eq.
  pose proof (nested_passthrough (fold_ctx context_TODO st) 0 pres h
                (after_TODO context_TODO st)) as Hn.
  pose proof (nested_passthrough_not_nil (fold_ctx context_TODO st) 0 pres h
                (after_TODO context_TODO st) Hh) as Hnil.
  unfold returns in Hn, Hnil.
  destruct (nested _ _ _ _ _) as [f st'|]; [|done].
  by destruct Hn as (Hheap & _ & Hserve).
Qed.

Lemma serve_through_app pres2 pres1 (f h : CtxHandler) ctx w r wd :
  (∀ ctx' w' r' wd',
     CtxHandler_ServeHTTP f ctx' w' r' wd' = serve_through pres1 h ctx' w' r' wd') →
  serve_through pres2 f ctx w r wd = serve_through (pres2 ++ pres1) h ctx w r wd.
Proof.
  intros Hf. revert wd. induction pres2 as [|pre pres2 IH]; intros wd; simpl.
  - apply Hf.
  - apply bind_ext. intros _ wd'. apply IH.
Qed.

(** ** Extras *)

(** X1.  [New(c1, ..., cn).Then(h)] with the constructors listed in the
    call: from any state, the fold is the nesting [c1(ctx, ... cn(ctx, h))]
    of the listed constructors, up to the arrays that the calls allocate;
    the store that existed is kept. *)
Theorem New_listed_Then cs h st :
  CtxHandler_is_nil h = false →
  ∃ σ',
    heap st ⊆ σ'
    ∧ (args <- variadic cs ;; c <- New growslice_cap args ;;
       Then context_TODO c h) st
      = map_state (set_heap σ') (Then_spec context_TODO cs h st)
    ∧ (args <- variadic cs ;; c <- New growslice_cap args ;;
       ThenContext context_TODO c h) st
      = map_state (set_heap σ') (ThenContext_spec context_TODO cs h st).
Proof.
  intros Hh.
  pose proof (variadic_spec cs st) as Hv. unfold returns in Hv.
  unfold bind at 1 3.
  destruct (variadic cs st) as [args st1|]; [|done].
  destruct Hv as (Hsub1 & Hsame1 & Hwf & Hel).
  pose proof (New_spec args st1 Hwf) as Hn. unfold returns in Hn.
  unfold bind.
  destruct (New growslice_cap args st1) as [c st2|]; [|done].
  destruct Hn as (Hsub2 & Hsame2 & Hc & _). rewrite Hel in Hc.
  exists (heap st2). split_and!.
  - by etrans.
  - rewrite (Then_refines c cs h st2 Hc Hh).
    rewrite (same_but_heap_eq st st2) at 1
      by eauto using same_but_heap_trans.
    apply Then_spec_set_heap.
  - rewrite (ThenContext_refines c cs h st2 Hc Hh).
    rewrite (same_but_heap_eq st st2) at 1
      by eauto using same_but_heap_trans.
    apply ThenContext_spec_set_heap.
Qed.

(** X2.  [Append] composes: [c.Append(m1...).Append(m2...)] holds the
    constructors of [c], then those of [m1], then those of [m2], while [c]
    and the intermediate chain keep their own. *)
Theorem Append_Append c cs m1 m2 st :
  chain_holds (heap st) c cs →
  slice_wf (heap st) m1 →
  slice_wf (heap st) m2 →
  returns (e1 <- Append growslice_cap c m1 ;;
           e2 <- Append growslice_cap e1 m2 ;;
           ret (e1, e2)) st
    (λ es st',
       chain_holds (heap st') c cs
       ∧ chain_holds (heap st') es.1 (cs ++ slice_elems (heap st) m1)
       ∧ chain_holds (heap st') es.2
           (cs ++ slice_elems (heap st) m1 ++ slice_elems (heap st) m2)).
Proof.
  intros Hc Hm1 Hm2. pose proof Hc as [Hwf Hcs].
  apply returns_bind. eapply returns_mono; [by apply Append_spec|].
  intros e1 st1 (Hsub1 & _ & He1 & _). rewrite Hcs in He1.
  pose proof He1 as [Hwf1 Hel1].
  apply returns_bind.
  eapply returns_mono;
    [apply Append_spec; [done|by eapply slice_wf_weaken]|].
  intros e2 st2 (Hsub2 & _ & He2 & _). unfold returns, ret. simpl.
  rewrite Hel1, (slice_elems_weaken (heap st) (heap st1) m2), <-app_assoc
    in He2 by done.
  split_and!; try done.
  - eapply chain_holds_weaken; [|done]. by etrans.
  - by eapply chain_holds_weaken.
Qed.

(** X3.  Nothing to add: [New] of an empty slice, whatever array the
    slice points into, returns the chain of the nil slice and leaves the
    state as it is; [Append] of an empty slice still copies, its result
    holds the constructors of the receiver in an array that did not exist
    before, and the receiver keeps its own. *)
Theorem empty_arguments c cs xs st :
  chain_holds (heap st) c cs →
  slice_wf (heap st) xs →
  s_len xs = 0 →
  New growslice_cap xs st = Returned {| constructors := nil_slice |} st
  ∧ returns (Append growslice_cap c xs) st (λ e st',
      chain_holds (heap st') e cs
      ∧ fresh_slice (heap st) (constructors e)
      ∧ chain_holds (heap st') c cs).
Proof.
  intros Hc Hxs Hlen. split.
  - unfold New, go_append, bind, gets. simpl.
    rewrite Hlen. rewrite decide_True by lia.
    unfold slice_store. simpl. reflexivity.
  - pose proof Hc as [Hwf Hcs].
    eapply returns_mono; [by apply Append_spec|].
    intros e st' (Hsub & _ & He & Hfresh).
    assert (slice_elems (heap st) xs = []) as Hnil.
    { apply length_zero_iff_nil.
      pose proof (slice_elems_length_le (heap st) xs). lia. }
    rewrite Hcs, Hnil, app_nil_r in He.
    split_and!; try done. by eapply chain_holds_weaken.
Qed.

(** X4.  A panic of a constructor aborts the fold: when the constructors
    after index [i] have returned and the one at index [i] panics, [Then] and
    [ThenContext] panic with the same value in the state of that panic, and
    no constructor of a lower index is called.  A nil constructor panics
    with a nil dereference. *)
Theorem constructor_panic_aborts_fold c pre (f : Constructor) post h st
    inner st1 v st2 :
  chain_holds (heap st) c (pre ++ f :: post) →
  CtxHandler_is_nil h = false →
  nested (fold_ctx context_TODO st) (S (length pre)) post h
    (after_TODO context_TODO st) = Returned inner st1 →
  call_constructor (length pre) f (fold_ctx context_TODO st) inner st1
    = Panicked v st2 →
  Then context_TODO c h st = Panicked v st2
  ∧ ThenContext context_TODO c h st = Panicked v st2
  ∧ trace st2
    = trace st1 ++ [EvConstructor (length pre) f (fold_ctx context_TODO st) inner]
  ∧ (f = None → v = nil_dereference).
Proof.
  intros Hc Hh Hpost Hf.
  assert (ThenContext context_TODO c h st = Panicked v st2) as HTC.
  { rewrite (ThenContext_refines c _ h st Hc Hh).
    unfold ThenContext_spec, bind. rewrite call_TODO_eq.
    by rewrite nested_split, Hpost, Hf. }
  split_and!; try done.
  - rewrite Then_via_ThenContext. unfold bind. by rewrite HTC.
  - pose proof (call_constructor_trace (length pre) f
                  (fold_ctx context_TODO st) inner st1) as Ht.
    by rewrite Hf in Ht.
  - intros ->. by injection Hf as <- _.
Qed.

(** X5.  The result of a constructor is not checked: when the outermost
    constructor returns nil, [ThenContext] returns nil and [Then] returns
    the adapter over nil, and every request to that handler panics with a
    nil dereference. *)
Theorem nil_layer_panics_at_request c (f : Constructor) rest h st inner st1 st2 :
  chain_holds (heap st) c (f :: rest) →
  CtxHandler_is_nil h = false →
  nested (fold_ctx context_TODO st) 1 rest h (after_TODO context_TODO st)
    = Returned inner st1 →
  call_constructor 0 f (fold_ctx context_TODO st) inner st1
    = Returned CtxHandler_nil st2 →
  ThenContext context_TODO c h st = Returned CtxHandler_nil st2
  ∧ ∃ p, Then context_TODO c h st = Returned p st2
         ∧ ∀ w r wd, Handler_ServeHTTP p w r wd = Panicked nil_dereference wd.
Proof.
  intros Hc Hh Hrest Hf.
  assert (ThenContext context_TODO c h st = Returned CtxHandler_nil st2) as HTC.
  { rewrite (ThenContext_refines c _ h st Hc Hh).
    unfold ThenContext_spec, bind. rewrite call_TODO_eq.
    rewrite (nested_split _ [] f rest). simpl. by rewrite Hrest, Hf. }
  split; [done|]. eexists. split.
  - rewrite Then_via_ThenContext. unfold bind. by rewrite HTC.
  - done.
Qed.

(** X6.  A nil function converted to [CtxHandler] is not a nil interface:
    [Then] accepts it and folds the chain, and a request to the result
    passes through the middleware and then panics with a nil dereference,
    whereas [ThenFunc] of the nil function panics when folding. *)
Theorem Then_accepts_typed_nil c pres st :
  chain_holds (heap st) c (map passthrough pres) →
  returns (Then context_TODO c (CtxHandler_of_CtxHandlerFunc None)) st (λ p _,
    ∀ w r wd,
      Handler_ServeHTTP p w r wd
      = serve_through pres (CtxHandler_impl (λ _ _ _, panic nil_dereference))
          (fold_ctx context_TODO st) w r wd)
  ∧ ThenFunc context_TODO c None st
    = Panicked (PanicString "nil is not allowed") (after_TODO context_TODO st).
Proof.
  intros Hc. split.
  - eapply returns_mono; [by apply Then_passthrough|].
    by intros p st' (_ & _ & Hserve).
  - unfold ThenFunc. rewrite Then_via_ThenContext. unfold bind.
    by rewrite ThenContext_eq.
Qed.

(** X7.  [ThenFunc] on a chain of middleware that call the following
    handler: a request to [c.ThenFunc(fn)] passes through the middleware in
    index order and then calls [fn] with the context of the fold, the
    writer and the request. *)
Theorem ThenFunc_serves c pres fn st :
  chain_holds (heap st) c (map passthrough pres) →
  returns (ThenFunc context_TODO c (Some fn)) st (λ p _, ∀ w r wd,
    Handler_ServeHTTP p w r wd
    = serve_through pres (CtxHandler_impl fn) (fold_ctx context_TODO st) w r wd).
Proof.
  intros Hc.
  eapply returns_mono;
    [by apply (Then_passthrough c pres (CtxHandler_impl fn))|].
  by intros p st' (_ & _ & Hserve).
Qed.

(** X8.  Whether a fold returns or panics, it writes to no array, it calls
    [context.TODO()] once and first, and the constructors it calls are a
    prefix of the chain's last, ..., first: each call is of the chain's
    constructor at that index, and none is called twice or out of order.
    A fold that returns has called all of them. *)
Theorem fold_calls_in_order c h st :
  ∃ evs : list Event,
    trace (final_state (Then context_TODO c h st))
      = trace st ++ EvTODO (fold_ctx context_TODO st) :: evs
    ∧ heap (final_state (Then context_TODO c h st)) = heap st
    ∧ Forall (calls_member (slice_elems (heap st) (constructors c))) evs
    ∧ constructor_calls evs `prefix_of` reverse (seq 0 (s_len (constructors c)))
    ∧ (has_returned (Then context_TODO c h st) →
       constructor_calls evs = reverse (seq 0 (s_len (constructors c)))).
Proof.
  destruct (ThenContext_calls c h st)
    as (evs & Ht & Hheap & _ & Hmem & Hpre & Hret & _).
  exists evs. rewrite Then_final_state. split_and!; try done.
  intros Hr. by apply Hret, Then_has_returned.
Qed.

(** X9.  The handler of [ThenContext] can be the terminal of another fold:
    for chains of middleware that call the following handler,
    [c2.ThenContext(c1.ThenContext(h))] serves a request through the
    middleware of [c2], then those of [c1], then [h]. *)
Theorem ThenContext_composes c1 c2 pres1 pres2 h st :
  chain_holds (heap st) c1 (map passthrough pres1) →
  chain_holds (heap st) c2 (map passthrough pres2) →
  CtxHandler_is_nil h = false →
  returns (inner <- ThenContext context_TODO c1 h ;;
           ThenContext context_TODO c2 inner) st
    (λ f _, ∀ ctx w r wd,
       CtxHandler_ServeHTTP f ctx w r wd
       = serve_through (pres2 ++ pres1) h ctx w r wd).
Proof.
  intros Hc1 Hc2 Hh. apply returns_bind.
  eapply returns_mono; [by apply ThenContext_passthrough|].
  intros inner st1 (Hheap & Hnil & Hinner).
  eapply returns_mono;
    [apply (ThenContext_passthrough c2 pres2 inner); [by rewrite Hheap|done]|].
  intros f st2 (_ & _ & Hf) ctx w r wd.
  rewrite Hf. by apply serve_through_app.
Qed.

End alice_facts.

(** * The context of a fold *)

Section context_facts.

Context {ResponseWriter Request World : Type}.

Implicit Types (c : Chain).
Implicit Types (st : @State context.Context ResponseWriter Request World).
Implicit Types (h : @CtxHandler context.Context ResponseWriter Request World).


End context_facts.

(** * The embedding at work *)

Module ScenarioFacts.
Import Scenario.

(** The scenario of the specification: the log is Logger, Auth, index. *)
Example Logger_Auth_Index_log :
  served_log (Logger_Auth_Index st_empty) = Some ["Logger"; "Auth"; "index"].
Proof. vm_compute. reflexivity. Qed.

(** The store does alias: [append] to a slice with spare capacity writes
    into the array that the caller's other slices see. *)
Example append_in_place_aliases :
  slice_elems (heap (final_state (append_X_to_AB st_ABC))) slice_ABC
  = [middleware "A"; middleware "B"; middleware "X"].
Proof. vm_compute. reflexivity. Qed.

(** A chain made by [New] does not see a later write to the argument. *)
Example New_then_overwrite_log :
  served_log (New_then_overwrite st_ABC) = Some ["A"; "B"; "C"; "index"].
Proof. vm_compute. reflexivity. Qed.

(** A bare function as terminal, and the nil function. *)
Example ThenFunc_log :
  served_log (ThenFunc todo chain_ABC (endpoint_func "f") st_ABC)
  = Some ["A"; "B"; "C"; "f"].
Proof. vm_compute. reflexivity. Qed.

Example ThenFunc_nil :
  ThenFunc todo chain_ABC None st_ABC
  = Panicked (PanicString "nil is not allowed") (after_TODO todo st_ABC).
Proof. reflexivity. Qed.

(** A nil function converted to the interface is not a nil interface:
    [Then] accepts it, which is why [ThenFunc] tests [fn == nil] itself. *)
Example Then_typed_nil_returns :
  has_returned (Then todo chain_ABC (CtxHandler_of_CtxHandlerFunc None) st_ABC).
Proof. vm_compute. exact I. Qed.

(** C1 on the chain of [A], [B], [C] with the terminal [index]. *)
Lemma Then_nests_constructors_witness :
  chain_holds (heap st_ABC) chain_ABC middleware_ABC
  ∧ CtxHandler_is_nil (endpoint "index") = false
  ∧ (ThenContext todo chain_ABC (endpoint "index") st_ABC
       = ThenContext_spec todo middleware_ABC (endpoint "index") st_ABC
     ∧ Then todo chain_ABC (endpoint "index") st_ABC
       = Then_spec todo middleware_ABC (endpoint "index") st_ABC
     ∧ (∀ pres, middleware_ABC = map passthrough pres →
          returns (Then todo chain_ABC (endpoint "index")) st_ABC (λ p _,
            ∀ w r wd,
              Handler_ServeHTTP p w r wd
              = serve_through pres (endpoint "index") (fold_ctx todo st_ABC)
                  w r wd))).
Proof.
  assert (chain_holds (heap st_ABC) chain_ABC middleware_ABC) as H1.
  { split; [vm_compute; lia|reflexivity]. }
  assert (CtxHandler_is_nil (endpoint "index") = false) as H2.
  { reflexivity. }
  exact (conj H1 (conj H2
    (Then_nests_constructors todo chain_ABC middleware_ABC
       (endpoint "index") st_ABC H1 H2))).
Defined.

(** C3 on the chain of [A], [B], [C], extended by the slice of [C]. *)
Lemma Append_leaves_receiver_witness :
  chain_holds (heap st_ABC) chain_ABC middleware_ABC
  ∧ slice_wf (heap st_ABC) slice_C
  ∧ returns (Append grow chain_ABC slice_C) st_ABC (λ ext st',
      heap st_ABC ⊆ heap st'
      ∧ same_but_heap st_ABC st'
      ∧ chain_holds (heap st') chain_ABC middleware_ABC
      ∧ (∀ h, ThenContext todo chain_ABC h st'
              = map_state (set_heap (heap st')) (ThenContext todo chain_ABC h st_ABC))
      ∧ (∀ h, Then todo chain_ABC h st'
              = map_state (set_heap (heap st')) (Then todo chain_ABC h st_ABC))
      ∧ ∀ more2, slice_wf (heap st_ABC) more2 →
          returns (Append grow chain_ABC more2) st' (λ ext2 st'',
            chain_holds (heap st'') chain_ABC middleware_ABC
            ∧ chain_holds (heap st'') ext
                (middleware_ABC ++ slice_elems (heap st_ABC) slice_C)
            ∧ chain_holds (heap st'') ext2
                (middleware_ABC ++ slice_elems (heap st_ABC) more2))).
Proof.
  assert (chain_holds (heap st_ABC) chain_ABC middleware_ABC) as H1.
  { split; [vm_compute; lia|reflexivity]. }
  assert (slice_wf (heap st_ABC) slice_C) as H2.
  { vm_compute. lia. }
  exact (conj H1 (conj H2
    (Append_leaves_receiver todo grow chain_ABC middleware_ABC slice_C
       st_ABC H1 H2))).
Defined.

(** C4 on [New(arr...)] extended by the slice of [C]. *)
Lemma Append_extends_sequence_witness :
  slice_wf (heap st_ABC) slice_ABC
  ∧ slice_wf (heap st_ABC) slice_C
  ∧ (returns (base <- New grow slice_ABC ;;
              ext <- Append grow base slice_C ;;
              ret (base, ext)) st_ABC
       (λ chains st',
          chain_holds (heap st') chains.1 (slice_elems (heap st_ABC) slice_ABC)
          ∧ chain_holds (heap st') chains.2
              (slice_elems (heap st_ABC) slice_ABC
               ++ slice_elems (heap st_ABC) slice_C))
     ∧ ∀ A B term, CtxHandler_is_nil term = false →
         returns (args <- variadic [passthrough A] ;;
                  base <- New grow args ;;
                  args <- variadic [passthrough B] ;;
                  ext <- Append grow base args ;;
                  p1 <- Then todo base term ;;
                  p2 <- Then todo ext term ;;
                  ret (p1, p2)) st_ABC
           (λ pipes _, ∃ ctx1 ctx2, ∀ w r wd,
              Handler_ServeHTTP pipes.1 w r wd
              = (A ctx1 w r ;;; CtxHandler_ServeHTTP term ctx1 w r) wd
              ∧ Handler_ServeHTTP pipes.2 w r wd
                = (A ctx2 w r ;;; B ctx2 w r ;;;
                   CtxHandler_ServeHTTP term ctx2 w r) wd)).
Proof.
  assert (slice_wf (heap st_ABC) slice_ABC) as H1.
  { vm_compute. lia. }
  assert (slice_wf (heap st_ABC) slice_C) as H2.
  { vm_compute. lia. }
  exact (conj H1 (conj H2
    (Append_extends_sequence todo grow slice_ABC slice_C st_ABC H1 H2))).
Defined.

(** C5 on the chain of no constructor with the terminal [index]. *)
Lemma empty_chain_identity_witness :
  s_len (constructors chain_empty) = 0
  ∧ CtxHandler_is_nil (endpoint "index") = false
  ∧ (ThenContext todo chain_empty (endpoint "index") st_ABC
       = Returned (endpoint "index") (after_TODO todo st_ABC)
     ∧ Then todo chain_empty (endpoint "index") st_ABC
       = Returned
           (Handler_of_HandlerFunc
              (CtxHandlerToHandlerFunc (fold_ctx todo st_ABC) (endpoint "index")))
           (after_TODO todo st_ABC)
     ∧ ∀ w r,
         Handler_ServeHTTP
           (Handler_of_HandlerFunc
              (CtxHandlerToHandlerFunc (fold_ctx todo st_ABC) (endpoint "index")))
           w r
         = CtxHandler_ServeHTTP (endpoint "index") (fold_ctx todo st_ABC) w r).
Proof.
  assert (s_len (constructors chain_empty) = 0) as H1.
  { reflexivity. }
  assert (CtxHandler_is_nil (endpoint "index") = false) as H2.
  { reflexivity. }
  exact (conj H1 (conj H2
    (empty_chain_identity todo chain_empty (endpoint "index") st_ABC H1 H2))).
Defined.

(** The two pipes of one base chain: each request reaches its own
    terminal. *)
Example two_pipes_logs :
  served_log fold_h1 = Some ["A"; "B"; "C"; "h1"]
  ∧ served_log fold_h2 = Some ["A"; "B"; "C"; "h2"].
Proof. split; vm_compute; reflexivity. Qed.

(** C6 on the chain of [A], [B], [C] with the terminals [h1] and [h2]. *)
Lemma folds_are_independent_witness :
  chain_holds (heap st_ABC) chain_ABC middleware_ABC
  ∧ CtxHandler_is_nil (endpoint "h1") = false
  ∧ CtxHandler_is_nil (endpoint "h2") = false
  ∧ Then todo chain_ABC (endpoint "h1") st_ABC
    = Returned (result no_handler fold_h1) (final_state fold_h1)
  ∧ Then todo chain_ABC (endpoint "h2") (final_state fold_h1)
    = Returned (result no_handler fold_h2) (final_state fold_h2)
  ∧ (Then_spec todo middleware_ABC (endpoint "h1") st_ABC
       = Returned (result no_handler fold_h1) (final_state fold_h1)
     ∧ Then_spec todo middleware_ABC (endpoint "h2") (final_state fold_h1)
       = Returned (result no_handler fold_h2) (final_state fold_h2)
     ∧ heap (final_state fold_h1) = heap st_ABC
     ∧ heap (final_state fold_h2) = heap st_ABC
     ∧ (∃ evs1 evs2 : list Event,
          trace (final_state fold_h1)
            = trace st_ABC ++ EvTODO (fold_ctx todo st_ABC) :: evs1
          ∧ trace (final_state fold_h2)
            = trace (final_state fold_h1)
              ++ EvTODO (fold_ctx todo (final_state fold_h1)) :: evs2
          ∧ constructor_calls evs1 = reverse (seq 0 (length middleware_ABC))
          ∧ constructor_calls evs2 = reverse (seq 0 (length middleware_ABC))
          ∧ Forall (calls_member middleware_ABC) evs1
          ∧ Forall (calls_member middleware_ABC) evs2)
     ∧ (∀ pres, middleware_ABC = map passthrough pres → ∀ w r wd,
          Handler_ServeHTTP (result no_handler fold_h1) w r wd
          = serve_through pres (endpoint "h1") (fold_ctx todo st_ABC) w r wd
          ∧ Handler_ServeHTTP (result no_handler fold_h2) w r wd
            = serve_through pres (endpoint "h2")
                (fold_ctx todo (final_state fold_h1)) w r wd)).
Proof.
  assert (chain_holds (heap st_ABC) chain_ABC middleware_ABC) as H1.
  { split; [vm_compute; lia|reflexivity]. }
  assert (CtxHandler_is_nil (endpoint "h1") = false) as H2.
  { reflexivity. }
  assert (CtxHandler_is_nil (endpoint "h2") = false) as H3.
  { reflexivity. }
  assert (Then todo chain_ABC (endpoint "h1") st_ABC
          = Returned (result no_handler fold_h1) (final_state fold_h1)) as H4.
  { vm_compute. reflexivity. }
  assert (Then todo chain_ABC (endpoint "h2") (final_state fold_h1)
          = Returned (result no_handler fold_h2) (final_state fold_h2)) as H5.
  { vm_compute. reflexivity. }
  exact (conj H1 (conj H2 (conj H3 (conj H4 (conj H5
    (folds_are_independent todo chain_ABC middleware_ABC
       (endpoint "h1") (endpoint "h2") st_ABC
       (result no_handler fold_h1) (final_state fold_h1)
       (result no_handler fold_h2) (final_state fold_h2)
       H1 H2 H3 H4 H5)))))).
Defined.

(** C10 on [New(arr...)] and [Append(arr...)] for the array of [A], [B],
    [C]. *)
Lemma constructors_are_copied_witness :
  slice_wf (heap st_ABC) slice_ABC
  ∧ (returns (New grow slice_ABC) st_ABC (λ c st',
       isolated_from todo (heap st_ABC) c
         (slice_elems (heap st_ABC) slice_ABC) st')
     ∧ (∀ c0, slice_wf (heap st_ABC) (constructors c0) →
          returns (Append grow c0 slice_ABC) st_ABC (λ c st',
            isolated_from todo (heap st_ABC) c
              (slice_elems (heap st_ABC) (constructors c0)
               ++ slice_elems (heap st_ABC) slice_ABC) st'))
     ∧ (∀ s i (x : Constructor) st', slice_wf (heap st_ABC) s →
          ∃ σ', final_state (slice_assign s i x st') = set_heap σ' st'
                ∧ writes_within (heap st_ABC) (heap st') σ')).
Proof.
  assert (slice_wf (heap st_ABC) slice_ABC) as H1.
  { vm_compute. lia. }
  exact (conj H1 (constructors_are_copied todo grow slice_ABC st_ABC H1)).
Defined.

(** X1 on the listed constructors [A], [B], [C]. *)
Lemma New_listed_Then_witness :
  CtxHandler_is_nil (endpoint "index") = false
  ∧ ∃ σ',
      heap st_empty ⊆ σ'
      ∧ (args <- variadic middleware_ABC ;; c <- New grow args ;;
         Then todo c (endpoint "index")) st_empty
        = map_state (set_heap σ')
            (Then_spec todo middleware_ABC (endpoint "index") st_empty)
      ∧ (args <- variadic middleware_ABC ;; c <- New grow args ;;
         ThenContext todo c (endpoint "index")) st_empty
        = map_state (set_heap σ')
            (ThenContext_spec todo middleware_ABC (endpoint "index") st_empty).
Proof.
  assert (CtxHandler_is_nil (endpoint "index") = false) as H1.
  { reflexivity. }
  exact (conj H1
    (New_listed_Then todo grow middleware_ABC (endpoint "index") st_empty H1)).
Defined.

(** X2 on the chain of [A], [B], [C], extended by [arr[2:3]] and then by
    [arr[0:2]]. *)
Lemma Append_Append_witness :
  chain_holds (heap st_ABC) chain_ABC middleware_ABC
  ∧ slice_wf (heap st_ABC) slice_C
  ∧ slice_wf (heap st_ABC) slice_AB
  ∧ returns (e1 <- Append grow chain_ABC slice_C ;;
             e2 <- Append grow e1 slice_AB ;;
             ret (e1, e2)) st_ABC
      (λ es st',
         chain_holds (heap st') chain_ABC middleware_ABC
         ∧ chain_holds (heap st') es.1
             (middleware_ABC ++ slice_elems (heap st_ABC) slice_C)
         ∧ chain_holds (heap st') es.2
             (middleware_ABC ++ slice_elems (heap st_ABC) slice_C
              ++ slice_elems (heap st_ABC) slice_AB)).
Proof.
  assert (chain_holds (heap st_ABC) chain_ABC middleware_ABC) as H1.
  { split; [vm_compute; lia|reflexivity]. }
  assert (slice_wf (heap st_ABC) slice_C) as H2.
  { vm_compute. lia. }
  assert (slice_wf (heap st_ABC) slice_AB) as H3.
  { vm_compute. lia. }
  exact (conj H1 (conj H2 (conj H3
    (Append_Append grow chain_ABC middleware_ABC slice_C slice_AB st_ABC
       H1 H2 H3)))).
Defined.

(** X3 on the chain of [A], [B], [C] and the nil slice. *)
Lemma empty_arguments_witness :
  chain_holds (heap st_ABC) chain_ABC middleware_ABC
  ∧ slice_wf (heap st_ABC) nil_slice
  ∧ s_len nil_slice = 0
  ∧ (New grow nil_slice st_ABC = Returned {| constructors := nil_slice |} st_ABC
     ∧ returns (Append grow chain_ABC nil_slice) st_ABC (λ e st',
         chain_holds (heap st') e middleware_ABC
         ∧ fresh_slice (heap st_ABC) (constructors e)
         ∧ chain_holds (heap st') chain_ABC middleware_ABC)).
Proof.
  assert (chain_holds (heap st_ABC) chain_ABC middleware_ABC) as H1.
  { split; [vm_compute; lia|reflexivity]. }
  assert (slice_wf (heap st_ABC) nil_slice) as H2.
  { vm_compute. split; reflexivity. }
  assert (s_len nil_slice = 0) as H3.
  { reflexivity. }
  exact (conj H1 (conj H2 (conj H3
    (empty_arguments grow chain_ABC middleware_ABC nil_slice st_ABC
       H1 H2 H3)))).
Defined.

(** X4 on the array of [A], nil, [C]: the nil constructor at index 1
    panics after [C] has been called, and [A] is never called. *)
Lemma constructor_panic_aborts_fold_witness :
  chain_holds (heap st_AnilC) chain_ABC
    ([middleware "A"] ++ None :: [middleware "C"])
  ∧ CtxHandler_is_nil (endpoint "index") = false
  ∧ nested (fold_ctx todo st_AnilC) (S (length [middleware "A"]))
      [middleware "C"] (endpoint "index") (after_TODO todo st_AnilC)
    = Returned (result CtxHandler_nil fold_AnilC_above)
        (final_state fold_AnilC_above)
  ∧ call_constructor (length [middleware "A"]) None (fold_ctx todo st_AnilC)
      (result CtxHandler_nil fold_AnilC_above) (final_state fold_AnilC_above)
    = Panicked nil_dereference
        (log_event
           (EvConstructor 1 None (fold_ctx todo st_AnilC)
              (result CtxHandler_nil fold_AnilC_above))
           (final_state fold_AnilC_above))
  ∧ (Then todo chain_ABC (endpoint "index") st_AnilC
       = Panicked nil_dereference
           (log_event
              (EvConstructor 1 None (fold_ctx todo st_AnilC)
                 (result CtxHandler_nil fold_AnilC_above))
              (final_state fold_AnilC_above))
     ∧ ThenContext todo chain_ABC (endpoint "index") st_AnilC
       = Panicked nil_dereference
           (log_event
              (EvConstructor 1 None (fold_ctx todo st_AnilC)
                 (result CtxHandler_nil fold_AnilC_above))
              (final_state fold_AnilC_above))
     ∧ trace
         (log_event
            (EvConstructor 1 None (fold_ctx todo st_AnilC)
               (result CtxHandler_nil fold_AnilC_above))
            (final_state fold_AnilC_above))
       = trace (final_state fold_AnilC_above)
         ++ [EvConstructor (length [middleware "A"]) None
               (fold_ctx todo st_AnilC)
               (result CtxHandler_nil fold_AnilC_above)]
     ∧ ((None : @Constructor string unit string Log) = None →
        nil_dereference = nil_dereference)).
Proof.
  assert (chain_holds (heap st_AnilC) chain_ABC
            ([middleware "A"] ++ None :: [middleware "C"])) as H1.
  { split; [vm_compute; lia|reflexivity]. }
  assert (CtxHandler_is_nil (endpoint "index") = false) as H2.
  { reflexivity. }
  assert (nested (fold_ctx todo st_AnilC) (S (length [middleware "A"]))
            [middleware "C"] (endpoint "index") (after_TODO todo st_AnilC)
          = Returned (result CtxHandler_nil fold_AnilC_above)
              (final_state fold_AnilC_above)) as H3.
  { vm_compute. reflexivity. }
  assert (call_constructor (length [middleware "A"]) None
            (fold_ctx todo st_AnilC)
            (result CtxHandler_nil fold_AnilC_above)
            (final_state fold_AnilC_above)
          = Panicked nil_dereference
              (log_event
                 (EvConstructor 1 None (fold_ctx todo st_AnilC)
                    (result CtxHandler_nil fold_AnilC_above))
                 (final_state fold_AnilC_above))) as H4.
  { reflexivity. }
  exact (conj H1 (conj H2 (conj H3 (conj H4
    (constructor_panic_aborts_fold todo chain_ABC [middleware "A"] None
       [middleware "C"] (endpoint "index") st_AnilC _ _ _ _
       H1 H2 H3 H4))))).
Defined.

(** The fold of [A], nil, [C] has called [C] only. *)
Example fold_AnilC_calls :
  constructor_calls
    (trace (final_state (Then todo chain_ABC (endpoint "index") st_AnilC)))
  = [2; 1].
Proof. vm_compute. reflexivity. Qed.

(** X5 on the array of the constructor that returns nil, [B] and [C]. *)
Lemma nil_layer_panics_at_request_witness :
  chain_holds (heap st_nilBC) chain_ABC
    (returns_nil :: [middleware "B"; middleware "C"])
  ∧ CtxHandler_is_nil (endpoint "index") = false
  ∧ nested (fold_ctx todo st_nilBC) 1 [middleware "B"; middleware "C"]
      (endpoint "index") (after_TODO todo st_nilBC)
    = Returned (result CtxHandler_nil fold_nilBC_above)
        (final_state fold_nilBC_above)
  ∧ call_constructor 0 returns_nil (fold_ctx todo st_nilBC)
      (result CtxHandler_nil fold_nilBC_above) (final_state fold_nilBC_above)
    = Returned CtxHandler_nil
        (final_state
           (call_constructor 0 returns_nil (fold_ctx todo st_nilBC)
              (result CtxHandler_nil fold_nilBC_above)
              (final_state fold_nilBC_above)))
  ∧ (ThenContext todo chain_ABC (endpoint "index") st_nilBC
       = Returned CtxHandler_nil
           (final_state
              (call_constructor 0 returns_nil (fold_ctx todo st_nilBC)
                 (result CtxHandler_nil fold_nilBC_above)
                 (final_state fold_nilBC_above)))
     ∧ ∃ p,
         Then todo chain_ABC (endpoint "index") st_nilBC
         = Returned p
             (final_state
                (call_constructor 0 returns_nil (fold_ctx todo st_nilBC)
                   (result CtxHandler_nil fold_nilBC_above)
                   (final_state fold_nilBC_above)))
         ∧ ∀ w r wd, Handler_ServeHTTP p w r wd = Panicked nil_dereference wd).
Proof.
  assert (chain_holds (heap st_nilBC) chain_ABC
            (returns_nil :: [middleware "B"; middleware "C"])) as H1.
  { split; [vm_compute; lia|reflexivity]. }
  assert (CtxHandler_is_nil (endpoint "index") = false) as H2.
  { reflexivity. }
  assert (nested (fold_ctx todo st_nilBC) 1 [middleware "B"; middleware "C"]
            (endpoint "index") (after_TODO todo st_nilBC)
          = Returned (result CtxHandler_nil fold_nilBC_above)
              (final_state fold_nilBC_above)) as H3.
  { vm_compute. reflexivity. }
  assert (call_constructor 0 returns_nil (fold_ctx todo st_nilBC)
            (result CtxHandler_nil fold_nilBC_above)
            (final_state fold_nilBC_above)
          = Returned CtxHandler_nil
              (final_state
                 (call_constructor 0 returns_nil (fold_ctx todo st_nilBC)
                    (result CtxHandler_nil fold_nilBC_above)
                    (final_state fold_nilBC_above)))) as H4.
  { vm_compute. reflexivity. }
  exact (conj H1 (conj H2 (conj H3 (conj H4
    (nil_layer_panics_at_request todo chain_ABC returns_nil
       [middleware "B"; middleware "C"] (endpoint "index") st_nilBC _ _ _
       H1 H2 H3 H4))))).
Defined.

(** X6 on the chain of [A], [B], [C]. *)
Lemma Then_accepts_typed_nil_witness :
  chain_holds (heap st_ABC) chain_ABC
    (map passthrough [record "A"; record "B"; record "C"])
  ∧ (returns (Then todo chain_ABC (CtxHandler_of_CtxHandlerFunc None)) st_ABC
       (λ p _, ∀ w r wd,
          Handler_ServeHTTP p w r wd
          = serve_through [record "A"; record "B"; record "C"]
              (CtxHandler_impl (λ _ _ _, panic nil_dereference))
              (fold_ctx todo st_ABC) w r wd)
     ∧ ThenFunc todo chain_ABC None st_ABC
       = Panicked (PanicString "nil is not allowed") (after_TODO todo st_ABC)).
Proof.
  assert (chain_holds (heap st_ABC) chain_ABC
            (map passthrough [record "A"; record "B"; record "C"])) as H1.
  { split; [vm_compute; lia|reflexivity]. }
  exact (conj H1
    (Then_accepts_typed_nil todo chain_ABC
       [record "A"; record "B"; record "C"] st_ABC H1)).
Defined.

(** A request to the fold of the typed nil leaves the log of the
    middleware and panics. *)
Example typed_nil_request :
  Handler_ServeHTTP
    (result no_handler
       (Then todo chain_ABC (CtxHandler_of_CtxHandlerFunc None) st_ABC))
    tt "/" []
  = Panicked nil_dereference ["A"; "B"; "C"].
Proof. vm_compute. reflexivity. Qed.

(** X7 on the chain of [A], [B], [C] and the function that records [f]. *)
Lemma ThenFunc_serves_witness :
  chain_holds (heap st_ABC) chain_ABC
    (map passthrough [record "A"; record "B"; record "C"])
  ∧ returns (ThenFunc todo chain_ABC (Some (record "f"))) st_ABC
      (λ p _, ∀ w r wd,
         Handler_ServeHTTP p w r wd
         = serve_through [record "A"; record "B"; record "C"]
             (CtxHandler_impl (record "f")) (fold_ctx todo st_ABC) w r wd).
Proof.
  assert (chain_holds (heap st_ABC) chain_ABC
            (map passthrough [record "A"; record "B"; record "C"])) as H1.
  { split; [vm_compute; lia|reflexivity]. }
  exact (conj H1
    (ThenFunc_serves todo chain_ABC
       [record "A"; record "B"; record "C"] (record "f") st_ABC H1)).
Defined.

(** X9 on the chains over [arr[2:3]] and [arr[0:2]]. *)
Lemma ThenContext_composes_witness :
  chain_holds (heap st_ABC) chain_C (map passthrough [record "C"])
  ∧ chain_holds (heap st_ABC) chain_AB
      (map passthrough [record "A"; record "B"])
  ∧ CtxHandler_is_nil (endpoint "index") = false
  ∧ returns (inner <- ThenContext todo chain_C (endpoint "index") ;;
             ThenContext todo chain_AB inner) st_ABC
      (λ f _, ∀ ctx w r wd,
         CtxHandler_ServeHTTP f ctx w r wd
         = serve_through ([record "A"; record "B"] ++ [record "C"])
             (endpoint "index") ctx w r wd).
Proof.
  assert (chain_holds (heap st_ABC) chain_C (map passthrough [record "C"]))
    as H1.
  { split; [vm_compute; lia|reflexivity]. }
  assert (chain_holds (heap st_ABC) chain_AB
            (map passthrough [record "A"; record "B"])) as H2.
  { split; [vm_compute; lia|reflexivity]. }
  assert (CtxHandler_is_nil (endpoint "index") = false) as H3.
  { reflexivity. }
  exact (conj H1 (conj H2 (conj H3
    (ThenContext_composes todo chain_C chain_AB [record "C"]
       [record "A"; record "B"] (endpoint "index") st_ABC H1 H2 H3)))).
Defined.

(** A request to the fold under [context.TODO()]: every layer sees the
    context without a value for [user], whatever the request. *)
Example fold_ctx_AB_log :
  final_state
    (Handler_ServeHTTP
       (result no_handler (Then context.TODO chain_ctx_AB endpoint_ctx st_ctx_AB))
       tt "/any" [])
  = ["A"; "-"; "B"; "-"; "index"; "-"].
Proof. vm_compute. reflexivity. Qed.


End ScenarioFacts.
